(** * JWZ tokens (src/src/jwz.ts): a shallow embedding and its properties

    The file follows [jwz.ts]: the two classes [RawJSONWebZeroknowledge] and
    [Token], their methods, and the JavaScript built-ins the methods call
    ([atob], [btoa], [TextEncoder.encode], [String.prototype.split],
    [Object.keys], [JSON.stringify], property reads and truthiness).

    - Every method of [Token] is modelled; the properties quantify over
      tokens with any header.
    - Strings are JavaScript strings: sequences of UTF-16 code units.
    - Exceptions and rejected promises are the [Err] results of a small
      state-and-error monad; a thrown error does not roll the state back.
    - [await] is sequencing: every method of the file is a sequential pipeline.
    - The collaborators that live outside [jwz.ts] ([hash], [getProvingMethod],
      [prepare], the [ProvingMethod] objects, [JSON.parse] and the Number type)
      are parameters, gathered in the classes [Numbers] and [Platform]; each
      call to a collaborator is recorded in a trace. *)

From Stdlib Require Import Ascii String List NArith ZArith Bool Lia.
Import ListNotations.

Set Implicit Arguments.
#[local] Set Warnings "-register-all".
Local Open Scope N_scope.

(** ** JavaScript strings and byte arrays *)

(** A string is the list of its UTF-16 code units; a [Uint8Array] is the list
    of its bytes. *)
Definition jsstring := list N.
Definition bytes := list N.

(** A literal whose characters are ASCII. *)
Definition js (s : string) : jsstring :=
  map N_of_ascii (list_ascii_of_string s).

(** JSON texts are written with ['] standing for the double quote. *)
Definition json_text (s : string) : jsstring :=
  map (fun c => if N.eqb c 39 then 34 else c) (js s).

Fixpoint jseqb (a b : jsstring) : bool :=
  match a, b with
  | [], [] => true
  | x :: a', y :: b' => N.eqb x y && jseqb a' b'
  | _, _ => false
  end.

(** ** Errors and results *)

Inductive Collaborator :=
| ByGetProvingMethod | ByHash | ByPrepare | ByMethodProve | ByMethodVerify.

Inductive Error :=
| MissingPayload                          (* 'missing payload in JWZ message' *)
| CriticalHeaderMissing (key : jsstring)  (* 'header is listed in critical ${key}, but not presented' *)
| InvalidCompactSegments                  (* 'compact JWZ format must have three segments' *)
| PrepareFunctionMissing                  (* 'prepare func must be defined' *)
| SerializationIncomplete                 (* "can't serialize without one of components" *)
| SyntaxError                             (* thrown by JSON.parse *)
| TypeError                               (* thrown by Object.keys and by a read on null or undefined *)
| InvalidCharacterError                   (* thrown by atob and btoa *)
| Rejected (who : Collaborator).          (* a collaborator threw or rejected *)

Inductive Res (A : Type) :=
| Ok (a : A)
| Err (e : Error).
Arguments Ok {A} a.
Arguments Err {A} e.

Definition res_bind {A B} (r : Res A) (k : A -> Res B) : Res B :=
  match r with
  | Ok a => k a
  | Err e => Err e
  end.

Definition is_ok {A} (r : Res A) : bool :=
  match r with Ok _ => true | Err _ => false end.

(** ** Base64: [btoa] and [atob] *)

Module Base64.

(** The character of a six-bit value: [A-Z], [a-z], [0-9], [+], [/]. *)
Definition enc (v : N) : N :=
  if N.ltb v 26 then 65 + v
  else if N.ltb v 52 then 71 + v
  else if N.ltb v 62 then v - 4
  else if N.eqb v 62 then 43
  else 47.

(** The six-bit value of a character of the alphabet. *)
Definition dec (c : N) : option N :=
  if N.leb 65 c && N.leb c 90 then Some (c - 65)
  else if N.leb 97 c && N.leb c 122 then Some (c - 71)
  else if N.leb 48 c && N.leb c 57 then Some (c + 4)
  else if N.eqb c 43 then Some 62
  else if N.eqb c 47 then Some 63
  else None.

Definition pad : N := 61.   (* '=' *)

Fixpoint encode (bs : bytes) : jsstring :=
  match bs with
  | a :: b :: c :: rest =>
      enc (a / 4) :: enc ((a mod 4) * 16 + b / 16)
        :: enc ((b mod 16) * 4 + c / 64) :: enc (c mod 64) :: encode rest
  | [a; b] =>
      [enc (a / 4); enc ((a mod 4) * 16 + b / 16); enc ((b mod 16) * 4); pad]
  | [a] => [enc (a / 4); enc ((a mod 4) * 16); pad; pad]
  | [] => []
  end%N.

(** Groups of four six-bit values give three bytes; a last group of three
    gives two bytes and a last group of two gives one, the bits left over
    being dropped. *)
Fixpoint decode (vs : list N) : bytes :=
  match vs with
  | a :: b :: c :: d :: rest =>
      (a * 4 + b / 16) :: ((b mod 16) * 16 + c / 4) :: ((c mod 4) * 64 + d)
        :: decode rest
  | [a; b; c] => [a * 4 + b / 16; (b mod 16) * 16 + c / 4]
  | [a; b] => [a * 4 + b / 16]
  | _ => []
  end%N.

Fixpoint sextets (s : jsstring) : option (list N) :=
  match s with
  | [] => Some []
  | c :: rest =>
      match dec c, sextets rest with
      | Some v, Some vs => Some (v :: vs)
      | _, _ => None
      end
  end.

(** The six-bit values [encode] writes, without the padding. *)
Fixpoint groups (bs : bytes) : list N :=
  match bs with
  | a :: b :: c :: rest =>
      a / 4 :: (a mod 4) * 16 + b / 16 :: (b mod 16) * 4 + c / 64 :: c mod 64
        :: groups rest
  | [a; b] => [a / 4; (a mod 4) * 16 + b / 16; (b mod 16) * 4]
  | [a] => [a / 4; (a mod 4) * 16]
  | [] => []
  end%N.

(** TAB, LF, FF, CR and SPACE. *)
Definition is_ascii_whitespace (c : N) : bool :=
  N.eqb c 9 || N.eqb c 10 || N.eqb c 12 || N.eqb c 13 || N.eqb c 32.

(** Removes one or two [=] from the end. *)
Definition strip_padding (s : jsstring) : jsstring :=
  match rev s with
  | p :: q :: r =>
      if N.eqb p pad then (if N.eqb q pad then rev r else rev (q :: r)) else s
  | [p] => if N.eqb p pad then [] else s
  | [] => s
  end.

End Base64.

(** [btoa(s)]: throws when a code unit is above 0xFF, else the Base64 text of
    the bytes, padded with [=]. *)
Definition btoa (s : jsstring) : Res jsstring :=
  if forallb (fun c => N.leb c 255) s then Ok (Base64.encode s)
  else Err InvalidCharacterError.

(** [atob(s)], the forgiving Base64 decoder: ASCII whitespace is removed; when
    the length is a multiple of four, one or two [=] at the end are removed;
    a length that is 1 modulo 4 or a character outside the alphabet throws. *)
Definition atob (s : jsstring) : Res jsstring :=
  let d := filter (fun c => negb (Base64.is_ascii_whitespace c)) s in
  let d := if Nat.eqb (Nat.modulo (length d) 4%nat) 0%nat then Base64.strip_padding d else d in
  if Nat.eqb (Nat.modulo (length d) 4%nat) 1%nat then Err InvalidCharacterError
  else match Base64.sextets d with
       | Some vs => Ok (Base64.decode vs)
       | None => Err InvalidCharacterError
       end.

(** ** [TextEncoder.encode]: UTF-8 *)

Module Utf8.

Definition is_lead (c : N) : bool := N.leb 55296 c && N.leb c 56319.   (* D800..DBFF *)
Definition is_trail (c : N) : bool := N.leb 56320 c && N.leb c 57343.  (* DC00..DFFF *)

(** The code points of a string; a surrogate without its partner becomes
    U+FFFD. *)
Fixpoint code_points (s : jsstring) : list N :=
  match s with
  | [] => []
  | c :: rest =>
      if is_lead c then
        match rest with
        | d :: rest' =>
            if is_trail d
            then (65536 + (c - 55296) * 1024 + (d - 56320))%N :: code_points rest'
            else 65533%N :: code_points rest
        | [] => [65533%N]
        end
      else if is_trail c then 65533%N :: code_points rest
      else c :: code_points rest
  end.

Definition encode_point (p : N) : bytes :=
  (if N.ltb p 128 then [p]
   else if N.ltb p 2048 then [192 + p / 64; 128 + p mod 64]
   else if N.ltb p 65536 then [224 + p / 4096; 128 + (p / 64) mod 64; 128 + p mod 64]
   else [240 + p / 262144; 128 + (p / 4096) mod 64; 128 + (p / 64) mod 64; 128 + p mod 64])%N.

Definition encode (s : jsstring) : bytes :=
  flat_map encode_point (code_points s).

End Utf8.

(** ** [String.prototype.split] with a one-character separator *)

Fixpoint split (sep : N) (s : jsstring) : list jsstring :=
  match s with
  | [] => [[]]
  | c :: rest =>
      if N.eqb c sep then [] :: split sep rest
      else match split sep rest with
           | seg :: segs => (c :: seg) :: segs
           | [] => [[c]]
           end
  end.

(** ** [String.prototype.trim] and [startsWith] *)

(** White space and line terminators, as [trim] removes them. *)
Definition is_js_whitespace (c : N) : bool :=
  (N.leb 9 c && N.leb c 13) || N.eqb c 32 || N.eqb c 160 || N.eqb c 5760
  || (N.leb 8192 c && N.leb c 8202) || N.eqb c 8232 || N.eqb c 8233
  || N.eqb c 8239 || N.eqb c 8287 || N.eqb c 12288 || N.eqb c 65279.

Fixpoint trimStart (s : jsstring) : jsstring :=
  match s with
  | c :: rest => if is_js_whitespace c then trimStart rest else s
  | [] => []
  end.

Definition trim (s : jsstring) : jsstring := rev (trimStart (rev (trimStart s))).

Definition startsWith (s : jsstring) (c : N) : bool :=
  match s with
  | d :: _ => N.eqb d c
  | [] => false
  end.

(** Texts of ASCII characters, and texts in the range of [btoa]. *)
Definition ascii_only (s : jsstring) : Prop := Forall (fun c => c < 128) s.

Definition latin1 (s : jsstring) : bool := forallb (fun c => N.leb c 255) s.

(** Decimal digits of a natural number, as [ToString] writes an array index. *)
Fixpoint uint_chars (d : Decimal.uint) : jsstring :=
  match d with
  | Decimal.Nil => []
  | Decimal.D0 r => 48 :: uint_chars r
  | Decimal.D1 r => 49 :: uint_chars r
  | Decimal.D2 r => 50 :: uint_chars r
  | Decimal.D3 r => 51 :: uint_chars r
  | Decimal.D4 r => 52 :: uint_chars r
  | Decimal.D5 r => 53 :: uint_chars r
  | Decimal.D6 r => 54 :: uint_chars r
  | Decimal.D7 r => 55 :: uint_chars r
  | Decimal.D8 r => 56 :: uint_chars r
  | Decimal.D9 r => 57 :: uint_chars r
  end.

Definition index_string (i : nat) : jsstring := uint_chars (Nat.to_uint i).

(** ** JavaScript values *)

(** The Number type (IEEE doubles) is a parameter: the file only needs to know
    which numbers are falsy and how [JSON.stringify] writes one. *)
Class Numbers := {
  num : Type;
  num_truthy : num -> bool;          (* false for +0, -0 and NaN *)
  Number_ofNat : nat -> num;         (* the Number of a length *)
  Number_toJSON : num -> jsstring    (* what JSON.stringify writes: "null" for NaN and the infinities *)
}.

Section Values.

Context {NUM : Numbers}.

(** The values that flow through [jwz.ts]: JSON data, [undefined], and
    [JNative] for a built-in function or object reached through
    [Object.prototype] (such as [headers['toString']]).  The property list of
    an object is kept in the order [Object.keys] enumerates it. *)
Inductive JSValue :=
| JUndefined
| JNull
| JBool (b : bool)
| JNum (n : num)
| JStr (s : jsstring)
| JArr (items : list JSValue)
| JObj (props : list (jsstring * JSValue))
| JNative.

Definition Props := list (jsstring * JSValue).

(** [ToBoolean]: [if (!v)] takes the branch exactly when [truthy v = false]. *)
Definition truthy (v : JSValue) : bool :=
  match v with
  | JUndefined | JNull => false
  | JBool b => b
  | JNum n => num_truthy n
  | JStr s => negb (jseqb s [])
  | JArr _ | JObj _ | JNative => true
  end.

Definition truthy_string (s : jsstring) : bool := truthy (JStr s).

(** A field of a [{} as T] object that was never assigned reads [undefined]. *)
Definition truthy_field (s : option jsstring) : bool :=
  match s with
  | Some t => truthy_string t
  | None => false
  end.

(** [ToString] of such a field. *)
Definition field_text (s : option jsstring) : jsstring :=
  match s with
  | Some t => t
  | None => js "undefined"
  end.

Fixpoint lookup (props : Props) (key : jsstring) : option JSValue :=
  match props with
  | [] => None
  | (k, v) :: rest => if jseqb k key then Some v else lookup rest key
  end.

Fixpoint at_index {A} (xs : list A) (i : nat) (key : jsstring) : option A :=
  match xs with
  | [] => None
  | x :: rest => if jseqb (index_string i) key then Some x else at_index rest (S i) key
  end.

(** The own properties of a value: the members of an object, the elements
    and [length] of an array, the characters and [length] of a string. *)
Definition own_property (v : JSValue) (key : jsstring) : option JSValue :=
  match v with
  | JObj props => lookup props key
  | JArr items =>
      match at_index items 0 key with
      | Some x => Some x
      | None => if jseqb key (js "length")
                then Some (JNum (Number_ofNat (length items))) else None
      end
  | JStr s =>
      match at_index s 0 key with
      | Some c => Some (JStr [c])
      | None => if jseqb key (js "length")
                then Some (JNum (Number_ofNat (length s))) else None
      end
  | _ => None
  end.

(** The properties every value inherits from [Object.prototype]. *)
Definition object_prototype_names : list jsstring :=
  map js [ "constructor"; "__defineGetter__"; "__defineSetter__"; "hasOwnProperty";
           "__lookupGetter__"; "__lookupSetter__"; "isPrototypeOf";
           "propertyIsEnumerable"; "toString"; "valueOf"; "__proto__";
           "toLocaleString" ]%string.

Definition inherited (key : jsstring) : bool :=
  existsb (jseqb key) object_prototype_names.

(** [v[key]].  Reading a property of [null] or [undefined] throws.  The
    methods that arrays, strings, numbers and booleans inherit from their own
    prototypes are left out: [sanitized] reads such a receiver with the key
    ['crit'] only (see [Get_crit_is_own]). *)
Definition Get (v : JSValue) (key : jsstring) : Res JSValue :=
  match v with
  | JUndefined | JNull => Err TypeError
  | _ => Ok match own_property v key with
            | Some x => x
            | None => if inherited key then JNative else JUndefined
            end
  end.

(** [Object.keys(v)]: throws on [null] and [undefined]; the indices of an
    array or of a string; the keys of an object; nothing for the rest. *)
Definition Object_keys (v : JSValue) : Res (list jsstring) :=
  match v with
  | JUndefined | JNull => Err TypeError
  | JArr items => Ok (map index_string (seq 0 (length items)))
  | JStr s => Ok (map index_string (seq 0 (length s)))
  | JObj props => Ok (map fst props)
  | JBool _ | JNum _ | JNative => Ok []
  end.

(** *** [JSON.stringify] *)

Definition hex_digit (v : N) : N := if N.ltb v 10 then 48 + v else 87 + v.

(** [\uXXXX], in lower-case hexadecimal. *)
Definition unicode_escape (c : N) : jsstring :=
  [92; 117; hex_digit (c / 4096); hex_digit ((c / 256) mod 16);
   hex_digit ((c / 16) mod 16); hex_digit (c mod 16)].

Definition quote_unit (c : N) : jsstring :=
  if N.eqb c 8 then js "\b"
  else if N.eqb c 9 then js "\t"
  else if N.eqb c 10 then js "\n"
  else if N.eqb c 12 then js "\f"
  else if N.eqb c 13 then js "\r"
  else if N.eqb c 34 then [92; 34]
  else if N.eqb c 92 then [92; 92]
  else if N.ltb c 32 then unicode_escape c
  else [c].

(** [QuoteJSONString] without the enclosing quotes: a surrogate without its
    partner is escaped, a pair is kept. *)
Fixpoint quote_body (s : jsstring) : jsstring :=
  match s with
  | [] => []
  | c :: rest =>
      if Utf8.is_lead c then
        match rest with
        | d :: rest' =>
            if Utf8.is_trail d then c :: d :: quote_body rest'
            else unicode_escape c ++ quote_body rest
        | [] => unicode_escape c
        end
      else if Utf8.is_trail c then unicode_escape c ++ quote_body rest
      else quote_unit c ++ quote_body rest
  end.

Definition quote (s : jsstring) : jsstring := 34 :: quote_body s ++ [34].

Fixpoint join_comma (parts : list jsstring) : jsstring :=
  match parts with
  | [] => []
  | [p] => p
  | p :: rest => p ++ 44 :: join_comma rest
  end.

(** [JSON.stringify(v)] with no replacer and no indentation, on the values of
    [JSValue]; [None] is the result [undefined].  A member whose value has no
    JSON text is left out of an object and written [null] in an array.
    The values of [JSValue] are data: none of them is callable, so an object
    has no [toJSON] method to call and its text opens with a brace.  An
    object that does carry a [toJSON] function is outside this type; the
    properties below that depend on how a header or a proof is written are
    stated on the text, as a hypothesis or as the value of this function, and
    not on the shape of the object. *)
Fixpoint JSON_stringify (v : JSValue) : option jsstring :=
  match v with
  | JUndefined | JNative => None
  | JNull => Some (js "null")
  | JBool true => Some (js "true")
  | JBool false => Some (js "false")
  | JNum n => Some (Number_toJSON n)
  | JStr s => Some (quote s)
  | JArr items =>
      Some (91 :: join_comma
                    (map (fun x => match JSON_stringify x with
                                   | Some t => t
                                   | None => js "null"
                                   end) items) ++ [93])
  | JObj props =>
      Some (123 :: join_comma
                     (flat_map (fun kv => match JSON_stringify (snd kv) with
                                          | Some t => [quote (fst kv) ++ 58 :: t]
                                          | None => []
                                          end) props) ++ [125])
  end.

End Values.

(** ** The state-and-error monad *)

(** A computation over a state [S]: it ends with a value or with a thrown
    error, and with the state as it was left. *)
Definition M (S A : Type) : Type := S -> Res A * S.

Definition ret {S A} (a : A) : M S A := fun s => (Ok a, s).

Definition throw {S A} (e : Error) : M S A := fun s => (Err e, s).

Definition bind {S A B} (c : M S A) (k : A -> M S B) : M S B :=
  fun s => match c s with
           | (Ok a, s') => k a s'
           | (Err e, s') => (Err e, s')
           end.

Definition lift {S A} (r : Res A) : M S A := fun s => (r, s).

Definition modify {S} (f : S -> S) : M S unit := fun s => (Ok tt, f s).

Notation "x <- c ;; k" := (bind c (fun x => k))
  (at level 61, c at next level, right associativity).
Notation "c ;;; k" := (bind c (fun _ => k))
  (at level 61, right associativity).

Fixpoint forEach {S A} (xs : list A) (f : A -> M S unit) : M S unit :=
  match xs with
  | [] => ret tt
  | x :: rest => f x ;;; forEach rest f
  end.

(** ** The collaborators *)

Section Jwz.

Context {NUM : Numbers}.

(** [ZKProof] is declared in './proving'; a proof is a JSON object. *)
Definition ZKProof := JSValue.

(** [ProvingMethod], declared in './proving': [None] is a thrown error or a
    rejected promise. *)
Record ProvingMethod := {
  method_alg : jsstring;
  method_circuitId : jsstring;
  method_prove : bytes -> bytes -> bytes -> option ZKProof;
  method_verify : bytes -> ZKProof -> bytes -> option bool
}.

(** [ProofInputsPreparerHandlerFunc], declared in './proving'. *)
Definition ProofInputsPreparerHandlerFunc := bytes -> JSValue -> option bytes.

(** What [jwz.ts] imports or finds in its runtime. *)
Class Platform := {
  JSON_parse : jsstring -> option JSValue;              (* [None]: SyntaxError *)
  hash : bytes -> option Z;                             (* './hash' *)
  littleEndianWidth : nat;                              (* the width './core/util' writes *)
  getProvingMethod : JSValue -> option ProvingMethod;   (* './proving' *)
  prepare : ProofInputsPreparerHandlerFunc -> bytes -> JSValue -> option bytes
                                                        (* './proving' *)
}.

Context {PF : Platform}.

(** The calls made to the collaborators, in the order they are made. *)
Inductive Call :=
| CallGetProvingMethod (alg : JSValue)
| CallHash (message : bytes)
| CallPrepare (msgHash : bytes) (circuitId : JSValue)
| CallProve (inputs provingKey wasm : bytes)
| CallVerify (msgHash : bytes) (proof : ZKProof) (verificationKey : bytes).

Definition Trace := list Call.

Definition is_CallProve (c : Call) : bool :=
  match c with CallProve _ _ _ => true | _ => false end.


Definition is_CallVerify (c : Call) : bool :=
  match c with CallVerify _ _ _ => true | _ => false end.

Definition or_reject {A} (who : Collaborator) (o : option A) : Res A :=
  match o with
  | Some a => Ok a
  | None => Err (Rejected who)
  end.

(** Modelled from the spec: [toLittleEndian] of './core/util', which is not
    among the sources.  "The integer is serialized to a fixed-width
    little-endian byte sequence": byte [i] is digit [i] of the integer in
    base 256, for [i] below the width. *)
Definition toLittleEndian (n : Z) : bytes :=
  map (fun i => Z.to_N ((n / 256 ^ Z.of_nat i) mod 256)%Z) (seq 0 littleEndianWidth).

(** ** The data model *)

Definition headerType : jsstring := js "typ".
Definition headerCritical : jsstring := js "crit".
Definition headerAlg : jsstring := js "alg".
Definition headerCircuitId : jsstring := js "circuitId".

(** [IRawJSONWebZeroknowledge].  [Token] starts its [raw] from [{}], so
    [protectedHeaders] and [zkp] are [None] until they are assigned. *)
Record IRawJSONWebZeroknowledge := {
  payload : jsstring;
  protectedHeaders : option jsstring;
  header : Props;
  zkp : option jsstring
}.

(** [new RawJSONWebZeroknowledge(payload, protectedHeaders, header, zkp)]. *)
Definition RawJSONWebZeroknowledge (payload protectedHeaders : jsstring)
    (header : Props) (zkp : jsstring) : IRawJSONWebZeroknowledge :=
  {| payload := payload; protectedHeaders := Some protectedHeaders;
     header := header; zkp := Some zkp |}.

Record Token := {
  alg : JSValue;
  circuitId : JSValue;
  raw : IRawJSONWebZeroknowledge;
  zkProof : ZKProof;
  method : ProvingMethod;
  inputsPreparer : option ProofInputsPreparerHandlerFunc
}.

Definition set_alg (v : JSValue) (t : Token) : Token :=
  {| alg := v; circuitId := circuitId t; raw := raw t; zkProof := zkProof t;
     method := method t; inputsPreparer := inputsPreparer t |}.

Definition set_circuitId (v : JSValue) (t : Token) : Token :=
  {| alg := alg t; circuitId := v; raw := raw t; zkProof := zkProof t;
     method := method t; inputsPreparer := inputsPreparer t |}.

Definition set_zkProof (p : ZKProof) (t : Token) : Token :=
  {| alg := alg t; circuitId := circuitId t; raw := raw t; zkProof := p;
     method := method t; inputsPreparer := inputsPreparer t |}.

Definition set_raw (r : IRawJSONWebZeroknowledge) (t : Token) : Token :=
  {| alg := alg t; circuitId := circuitId t; raw := r; zkProof := zkProof t;
     method := method t; inputsPreparer := inputsPreparer t |}.

Definition set_protectedHeaders (h : option jsstring) (t : Token) : Token :=
  set_raw {| payload := payload (raw t); protectedHeaders := h;
             header := header (raw t); zkp := zkp (raw t) |} t.

Definition set_zkp (z : option jsstring) (t : Token) : Token :=
  set_raw {| payload := payload (raw t); protectedHeaders := protectedHeaders (raw t);
             header := header (raw t); zkp := z |} t.

(** [getDefaultHeaders()]. *)
Definition getDefaultHeaders (alg circuitId : JSValue) : Props :=
  [ (headerAlg, alg);
    (headerCritical, JArr [JStr headerCircuitId]);
    (headerCircuitId, circuitId);
    (headerType, JStr (js "JWZ")) ].

(** [new Token(method, payload, inputsPreparer)]; the [console.log] of the
    constructor is not modelled. *)
Definition newToken (method : ProvingMethod) (payload : jsstring)
    (inputsPreparer : option ProofInputsPreparerHandlerFunc) : Token :=
  let alg := JStr (method_alg method) in
  let circuitId := JStr (method_circuitId method) in
  {| alg := alg; circuitId := circuitId;
     raw := {| payload := payload; protectedHeaders := None;
               header := getDefaultHeaders alg circuitId; zkp := None |};
     zkProof := JObj []; method := method; inputsPreparer := inputsPreparer |}.

Definition getPayload (this : Token) : jsstring := payload (raw this).

Definition setPayload (p : jsstring) (this : Token) : Token :=
  set_raw {| payload := p; protectedHeaders := protectedHeaders (raw this);
             header := header (raw this); zkp := zkp (raw this) |} this.

(** ** [RawJSONWebZeroknowledge.sanitized] *)

Definition JSON_parse_text (s : jsstring) : Res JSValue :=
  match JSON_parse s with
  | Some v => Ok v
  | None => Err SyntaxError
  end.

Definition call_getProvingMethod (alg : JSValue) : M Trace ProvingMethod :=
  fun calls => (or_reject ByGetProvingMethod (getProvingMethod alg),
                calls ++ [CallGetProvingMethod alg]).

(** The callback of [Object.keys(criticalHeaders).forEach]. *)
Definition check_critical (headers : JSValue) (key : jsstring) : M Trace unit :=
  v <- lift (Get headers key) ;;
  if negb (truthy v) then throw (CriticalHeaderMissing key) else ret tt.

Definition sanitized (this : IRawJSONWebZeroknowledge) : M Trace Token :=
  if negb (truthy_string (payload this)) then throw MissingPayload
  else
    headers <- lift (JSON_parse_text (field_text (protectedHeaders this))) ;;
    criticalHeaders <- lift (Get headers headerCritical) ;;
    keys <- lift (Object_keys criticalHeaders) ;;
    forEach keys (check_critical headers) ;;;
    alg <- lift (Get headers headerAlg) ;;
    method <- call_getProvingMethod alg ;;
    circuitId <- lift (Get headers headerCircuitId) ;;
    zkp <- lift (JSON_parse_text (field_text (zkp this))) ;;
    let token := newToken method (payload this) None in
    let token := set_alg alg token in
    let token := set_circuitId circuitId token in
    let token := set_zkProof zkp token in
    ret token.

(** ** [Token.parseCompact] *)

(** [parts[i]], as text: a missing element reads [undefined]. *)
Definition part (parts : list jsstring) (i : nat) : jsstring :=
  field_text (nth_error parts i).

Definition parseCompact (tokenStr : jsstring) : M Trace Token :=
  let parts := split 46 tokenStr in
  if negb (Nat.eqb (length parts) 3) then throw InvalidCompactSegments
  else
    rawProtected <- lift (atob (part parts 0)) ;;
    rawPayload <- lift (atob (part parts 1)) ;;
    proof <- lift (atob (part parts 2)) ;;
    let raw := RawJSONWebZeroknowledge rawPayload rawProtected [] proof in
    sanitized raw.

(** ** [Token.parseFull] and [Token.parse] *)

(** [JSON.parse] gives data: whatever [raw.sanitized] reads from it is not a
    function, and calling it throws. *)
Definition parseFull (tokenStr : jsstring) : M Trace Token :=
  raw <- lift (JSON_parse_text tokenStr) ;;
  _ <- lift (Get raw (js "sanitized")) ;;
  throw TypeError.

Definition parse (tokenStr : jsstring) : M Trace Token :=
  let token := trim tokenStr in
  if startsWith token 123 then parseFull tokenStr else parseCompact tokenStr.

(** ** [Token.compactSerialize], [getMessageHash], [prove], [verify] *)

(** The state of a method call on a token: [this] and the trace. *)
Definition World : Type := Token * Trace.

Definition this_token : M World Token := fun w => (Ok (fst w), w).

Definition update_this (f : Token -> Token) : M World unit :=
  modify (fun w : World => (f (fst w), snd w)).

Definition call {A} (c : Call) (who : Collaborator) (o : option A) : M World A :=
  fun w => (or_reject who o, (fst w, snd w ++ [c])).

Definition compactSerialize (this : Token) : Res jsstring :=
  if negb (truthy (JObj (header (raw this))))
     || negb (truthy_field (protectedHeaders (raw this)))
     || negb (truthy (zkProof this))
  then Err SerializationIncomplete
  else
    res_bind (atob (field_text (protectedHeaders (raw this)))) (fun serializedProtected =>
    res_bind (atob (field_text (JSON_stringify (zkProof this)))) (fun serializedProof =>
    res_bind (atob (payload (raw this))) (fun serializedPayload =>
    Ok (serializedProtected ++ js "." ++ serializedPayload ++ js "." ++ serializedProof)))).

(** [this.raw] as an object: [header] and [payload] are assigned by the
    constructor, in that order, [protectedHeaders] and [zkp] by [prove]. *)
Definition raw_object (r : IRawJSONWebZeroknowledge) : JSValue :=
  JObj ([ (js "header", JObj (header r)); (js "payload", JStr (payload r)) ]
        ++ match protectedHeaders r with
           | Some h => [(js "protectedHeaders", JStr h)]
           | None => []
           end
        ++ match zkp r with
           | Some z => [(js "zkp", JStr z)]
           | None => []
           end).

Definition fullSerialize (this : Token) : option jsstring :=
  JSON_stringify (raw_object (raw this)).

Definition getMessageHash : M World bytes :=
  this <- this_token ;;
  let headers := JSON_stringify (JObj (header (raw this))) in
  protectedHeaders <- lift (btoa (field_text headers)) ;;
  payload <- lift (btoa (payload (raw this))) ;;
  let messageToProof := Utf8.encode (protectedHeaders ++ js "." ++ payload) in
  hashInt <- call (CallHash messageToProof) ByHash (hash messageToProof) ;;
  ret (toLittleEndian hashInt).

Definition prove (provingKey wasm : bytes) : M World jsstring :=
  this <- this_token ;;
  let headers := JSON_stringify (JObj (header (raw this))) in
  update_this (set_protectedHeaders headers) ;;;
  msgHash <- getMessageHash ;;
  match inputsPreparer this with
  | None => throw PrepareFunctionMissing
  | Some preparer =>
      inputs <- call (CallPrepare msgHash (circuitId this)) ByPrepare
                     (prepare preparer msgHash (circuitId this)) ;;
      proof <- call (CallProve inputs provingKey wasm) ByMethodProve
                    (method_prove (method this) inputs provingKey wasm) ;;
      let marshaledProof := JSON_stringify proof in
      update_this (set_zkProof proof) ;;;
      update_this (set_zkp marshaledProof) ;;;
      this' <- this_token ;;
      lift (compactSerialize this')
  end.

Definition verify (verificationKey : bytes) : M World bool :=
  msgHash <- getMessageHash ;;
  this <- this_token ;;
  call (CallVerify msgHash (zkProof this) verificationKey) ByMethodVerify
       (method_verify (method this) msgHash (zkProof this) verificationKey).

(** ** Reading a run *)

(** The three parts of what a method call leaves: its result, the token and
    the trace. *)
Definition result_of {A} (x : Res A * World) : Res A := fst x.
Definition token_of {A} (x : Res A * World) : Token := fst (snd x).
Definition trace_of {A} (x : Res A * World) : Trace := snd (snd x).

(** The serialized current header, as [prove] and [getMessageHash] compute it. *)
Definition header_text (t : Token) : jsstring :=
  field_text (JSON_stringify (JObj (header (raw t)))).

(** The hash input of section 4.1 of the specification:
    [ASCII(encode(header) || "." || encode(payload))], one byte per character. *)
Definition canonical_message (t : Token) : bytes :=
  Base64.encode (header_text t) ++ 46 :: Base64.encode (payload (raw t)).

(** The value of a little-endian byte sequence. *)
Fixpoint fromLittleEndian (bs : bytes) : Z :=
  match bs with
  | [] => 0%Z
  | b :: rest => (Z.of_N b + 256 * fromLittleEndian rest)%Z
  end.

(** The token as [prove] leaves it after its first step, and after it has
    stored a proof. *)
Definition finalize_headers (t : Token) : Token :=
  set_protectedHeaders (JSON_stringify (JObj (header (raw t)))) t.

Definition store_proof (proof : ZKProof) (t : Token) : Token :=
  set_zkp (JSON_stringify proof) (set_zkProof proof t).

(** The runs of [prove] that stop before a proof is obtained: no preparer, or
    a failure of [getMessageHash], of the preparer or of the proving method. *)
Definition fails_before_proof (provingKey wasm : bytes) (t : Token) (calls : Trace) : Prop :=
  inputsPreparer t = None \/
  (exists e, result_of (getMessageHash (t, calls)) = Err e) \/
  (exists f h, inputsPreparer t = Some f /\
               result_of (getMessageHash (t, calls)) = Ok h /\
               (prepare f h (circuitId t) = None \/
                exists inputs, prepare f h (circuitId t) = Some inputs /\
                               method_prove (method t) inputs provingKey wasm = None)).

End Jwz.

(** ** A concrete platform, to run the model on token texts *)

Module Sample.

(** Numbers are integers here, which is all the texts below contain. *)
Definition Z_text (z : Z) : jsstring :=
  match z with
  | Z0 => [48]
  | Zpos p => uint_chars (Pos.to_uint p)
  | Zneg p => 45 :: uint_chars (Pos.to_uint p)
  end.

#[export] Instance integers : Numbers := {|
  num := Z;
  num_truthy := fun z => negb (Z.eqb z 0);
  Number_ofNat := Z.of_nat;
  Number_toJSON := Z_text
|}.

(** *** A reader of JSON texts

    It follows the JSON grammar, with numerals restricted to integers (a
    fraction or an exponent is refused). *)

Definition is_json_space (c : N) : bool :=
  N.eqb c 32 || N.eqb c 9 || N.eqb c 10 || N.eqb c 13.

Fixpoint skip_space (s : jsstring) : jsstring :=
  match s with
  | c :: rest => if is_json_space c then skip_space rest else s
  | [] => []
  end.

Definition hex_value (c : N) : option N :=
  if N.leb 48 c && N.leb c 57 then Some (c - 48)
  else if N.leb 97 c && N.leb c 102 then Some (c - 87)
  else if N.leb 65 c && N.leb c 70 then Some (c - 55)
  else None.

Definition unescape (c : N) : option N :=
  if N.eqb c 34 then Some 34          (* escaped double quote *)
  else if N.eqb c 92 then Some 92     (* escaped backslash *)
  else if N.eqb c 47 then Some 47     (* escaped slash *)
  else if N.eqb c 98 then Some 8      (* backslash b *)
  else if N.eqb c 102 then Some 12    (* backslash f *)
  else if N.eqb c 110 then Some 10    (* backslash n *)
  else if N.eqb c 114 then Some 13    (* backslash r *)
  else if N.eqb c 116 then Some 9     (* backslash t *)
  else None.

Definition cons_to {A} (c : N) (r : option (jsstring * A)) : option (jsstring * A) :=
  match r with
  | Some (s, rest) => Some (c :: s, rest)
  | None => None
  end.

(** The characters of a string literal, after its opening quote. *)
Fixpoint read_string (s : jsstring) : option (jsstring * jsstring) :=
  match s with
  | [] => None
  | c :: rest =>
      if N.eqb c 34 then Some ([], rest)
      else if N.eqb c 92 then
        match rest with
        | e :: rest1 =>
            if N.eqb e 117 then
              match rest1 with
              | h1 :: h2 :: h3 :: h4 :: rest2 =>
                  match hex_value h1, hex_value h2, hex_value h3, hex_value h4 with
                  | Some a, Some b, Some c', Some d =>
                      cons_to (a * 4096 + b * 256 + c' * 16 + d) (read_string rest2)
                  | _, _, _, _ => None
                  end
              | _ => None
              end
            else match unescape e with
                 | Some u => cons_to u (read_string rest1)
                 | None => None
                 end
        | [] => None
        end
      else if N.ltb c 32 then None
      else cons_to c (read_string rest)
  end.

Definition is_digit (c : N) : bool := N.leb 48 c && N.leb c 57.

Fixpoint read_digits (acc : Z) (s : jsstring) : Z * jsstring :=
  match s with
  | c :: rest =>
      if is_digit c then read_digits (acc * 10 + Z.of_N (c - 48)) rest else (acc, s)
  | [] => (acc, [])
  end.

(** An integer numeral: [0] or a digit string without a leading zero. *)
Definition read_natural (s : jsstring) : option (Z * jsstring) :=
  match s with
  | c :: rest =>
      if N.eqb c 48 then
        match rest with
        | d :: _ => if is_digit d then None else Some (0%Z, rest)
        | [] => Some (0%Z, rest)
        end
      else if is_digit c then Some (read_digits 0 s)
      else None
  | [] => None
  end.

Definition read_integer (s : jsstring) : option (Z * jsstring) :=
  let signed :=
    match s with
    | c :: rest =>
        if N.eqb c 45 then
          match read_natural rest with
          | Some (z, r) => Some ((- z)%Z, r)
          | None => None
          end
        else read_natural s
    | [] => None
    end in
  match signed with
  | Some (z, c :: r) =>
      if N.eqb c 46 || N.eqb c 101 || N.eqb c 69 then None else Some (z, c :: r)
  | other => other
  end.

Fixpoint drop_prefix (p s : jsstring) : option jsstring :=
  match p, s with
  | [], _ => Some s
  | a :: p', b :: s' => if N.eqb a b then drop_prefix p' s' else None
  | _ :: _, [] => None
  end.

(** A canonical array index: such keys come first in an object, in
    ascending order. *)
Definition array_index (k : jsstring) : option Z :=
  match read_natural k with
  | Some (z, []) => if Z.ltb z 4294967295 then Some z else None
  | _ => None
  end.

Definition has_key (props : Props) (k : jsstring) : bool :=
  match lookup props k with Some _ => true | None => false end.

Fixpoint replace_value (props : Props) (k : jsstring) (v : JSValue) : Props :=
  match props with
  | [] => []
  | (k', v') :: rest =>
      if jseqb k' k then (k', v) :: rest else (k', v') :: replace_value rest k v
  end.

Fixpoint insert_index (props : Props) (i : Z) (k : jsstring) (v : JSValue) : Props :=
  match props with
  | [] => [(k, v)]
  | (k', v') :: rest =>
      match array_index k' with
      | Some j => if Z.ltb j i then (k', v') :: insert_index rest i k v
                  else (k, v) :: props
      | None => (k, v) :: props
      end
  end.

(** [CreateDataProperty]: a repeated key keeps its place and takes the new
    value. *)
Definition put_prop (props : Props) (kv : jsstring * JSValue) : Props :=
  let (k, v) := kv in
  if has_key props k then replace_value props k v
  else match array_index k with
       | Some i => insert_index props i k v
       | None => props ++ [(k, v)]
       end.

Fixpoint read_value (fuel : nat) (s : jsstring) : option (JSValue * jsstring) :=
  match fuel with
  | O => None
  | S fuel' =>
      match skip_space s with
      | [] => None
      | c :: rest =>
          if N.eqb c 34 then
            match read_string rest with
            | Some (t, r) => Some (JStr t, r)
            | None => None
            end
          else if N.eqb c 91 then
            match drop_prefix [93] (skip_space rest) with
            | Some r => Some (JArr [], r)
            | None =>
                match read_items fuel' rest with
                | Some (items, r) => Some (JArr items, r)
                | None => None
                end
            end
          else if N.eqb c 123 then
            match drop_prefix [125] (skip_space rest) with
            | Some r => Some (JObj [], r)
            | None =>
                match read_members fuel' rest with
                | Some (members, r) => Some (JObj (fold_left put_prop members []), r)
                | None => None
                end
            end
          else match drop_prefix (js "true") (c :: rest),
                     drop_prefix (js "false") (c :: rest),
                     drop_prefix (js "null") (c :: rest) with
               | Some r, _, _ => Some (JBool true, r)
               | _, Some r, _ => Some (JBool false, r)
               | _, _, Some r => Some (JNull, r)
               | None, None, None =>
                   match read_integer (c :: rest) with
                   | Some (z, r) => Some (JNum (z : @num integers), r)
                   | None => None
                   end
               end
      end
  end
with read_items (fuel : nat) (s : jsstring) : option (list JSValue * jsstring) :=
  match fuel with
  | O => None
  | S fuel' =>
      match read_value fuel' s with
      | Some (v, r) =>
          match skip_space r with
          | c :: r' =>
              if N.eqb c 44 then
                match read_items fuel' r' with
                | Some (vs, r'') => Some (v :: vs, r'')
                | None => None
                end
              else if N.eqb c 93 then Some ([v], r')
              else None
          | [] => None
          end
      | None => None
      end
  end
with read_members (fuel : nat) (s : jsstring) : option (Props * jsstring) :=
  match fuel with
  | O => None
  | S fuel' =>
      match drop_prefix [34] (skip_space s) with
      | Some r0 =>
          match read_string r0 with
          | Some (k, r1) =>
              match drop_prefix [58] (skip_space r1) with
              | Some r2 =>
                  match read_value fuel' r2 with
                  | Some (v, r3) =>
                      match skip_space r3 with
                      | c :: r4 =>
                          if N.eqb c 44 then
                            match read_members fuel' r4 with
                            | Some (ms, r5) => Some ((k, v) :: ms, r5)
                            | None => None
                            end
                          else if N.eqb c 125 then Some ([(k, v)], r4)
                          else None
                      | [] => None
                      end
                  | None => None
                  end
              | None => None
              end
          | None => None
          end
      | None => None
      end
  end.

Definition read_json (s : jsstring) : option JSValue :=
  match read_value (2 * length s + 2) s with
  | Some (v, rest) =>
      match skip_space rest with
      | [] => Some v
      | _ :: _ => None
      end
  | None => None
  end.

(** *** Collaborators *)

(** A proving method [m1] for the circuit [c1]: its proof records how many
    input bytes it was given; it verifies a proof that is an object. *)
Definition m1 : ProvingMethod := {|
  method_alg := js "m1";
  method_circuitId := js "c1";
  method_prove := fun inputs _ _ =>
    Some (JObj [ (js "proof", JObj [ (js "pi_a", JArr [JStr (js "1"); JStr (js "2")]);
                                    (js "protocol", JStr (js "groth16")) ]);
                 (js "pub_signals", JArr [JNum (Z.of_nat (length inputs) : @num integers)]) ]);
  method_verify := fun _ proof _ =>
    Some match proof with JObj (_ :: _) => true | _ => false end
|}.

Definition registry (alg : JSValue) : option ProvingMethod :=
  match alg with
  | JStr a => if jseqb a (js "m1") then Some m1 else None
  | _ => None
  end.

(** The hash is the sum of the bytes; [prepare] calls the preparer. *)
#[export] Instance platform : Platform := {|
  JSON_parse := read_json;
  hash := fun message => Some (Z.of_N (fold_right N.add 0 message));
  littleEndianWidth := 31;
  getProvingMethod := registry;
  prepare := fun preparer msgHash circuitId => preparer msgHash circuitId
|}.

(** The same platform with a hash collaborator that rejects. *)
Definition platform_hash_down : Platform := {|
  JSON_parse := read_json;
  hash := fun _ => None;
  littleEndianWidth := 31;
  getProvingMethod := registry;
  prepare := fun preparer msgHash circuitId => preparer msgHash circuitId
|}.

(** A preparer that hands the hash on as the inputs. *)
Definition preparer : ProofInputsPreparerHandlerFunc :=
  fun msgHash _ => Some msgHash.

(** *** Tokens *)

Definition payload1 : jsstring := json_text "{'id':1}".

(** A token built for proving, with a preparer and without. *)
Definition fresh : Token := newToken m1 payload1 (Some preparer).
Definition unprepared : Token := newToken m1 payload1 None.

(** A token whose payload is the euro sign, U+20AC. *)
Definition euro : Token := newToken m1 [8364] None.

(** The header text [prove] stores for these tokens, and the text of the
    proof [m1] gives [fresh]. *)
Definition default_header_text : jsstring :=
  json_text "{'alg':'m1','crit':['circuitId'],'circuitId':'c1','typ':'JWZ'}".

Definition proof_text : jsstring :=
  json_text "{'proof':{'pi_a':['1','2'],'protocol':'groth16'},'pub_signals':[31]}".

(** [fresh] and [unprepared] after a call of [prove] with empty keys. *)
Definition proved : Token := fst (snd (prove [] [] (fresh, []))).
Definition attempted : Token := fst (snd (prove [] [] (unprepared, []))).

(** Raw tokens: one whose header holds every name its ['crit'] lists, one
    whose ['crit'] lists a name the header lacks (and that has a key ['0']),
    and one without ['crit']. *)
Definition listed_present : IRawJSONWebZeroknowledge :=
  RawJSONWebZeroknowledge payload1
    (json_text "{'alg':'m1','circuitId':'c1','crit':['circuitId'],'typ':'JWZ'}")
    [] proof_text.

Definition listed_absent : IRawJSONWebZeroknowledge :=
  RawJSONWebZeroknowledge payload1
    (json_text "{'0':'x','alg':'m1','circuitId':'c1','crit':['foo']}")
    [] proof_text.

Definition without_crit : IRawJSONWebZeroknowledge :=
  RawJSONWebZeroknowledge payload1
    (json_text "{'alg':'m1','circuitId':'c1','typ':'JWZ'}")
    [] proof_text.

(** The compact text an encoding serializer would give for [proved]:
    the three parts through [btoa], joined by periods. *)
Definition encoded_compact : Res jsstring :=
  res_bind (btoa default_header_text) (fun h =>
  res_bind (btoa payload1) (fun p =>
  res_bind (btoa proof_text) (fun z =>
  Ok (h ++ js "." ++ p ++ js "." ++ z)))).

End Sample.

(** ** [Token.setHeader] *)

Section Headers.

Context {NUM : Numbers}.

Definition has_own (props : Props) (key : jsstring) : bool :=
  match lookup props key with
  | Some _ => true
  | None => false
  end.

Fixpoint replace_own (props : Props) (key : jsstring) (value : JSValue) : Props :=
  match props with
  | [] => []
  | (k, v) :: rest =>
      if jseqb k key then (k, value) :: rest else (k, v) :: replace_own rest key value
  end.

(** A new key that is an array index goes among the index keys, which an
    object lists first and in ascending order. *)
Fixpoint insert_own_index (props : Props) (i : Z) (key : jsstring) (value : JSValue)
    : Props :=
  match props with
  | [] => [(key, value)]
  | (k, v) :: rest =>
      match Sample.array_index k with
      | Some j => if Z.ltb j i then (k, v) :: insert_own_index rest i key value
                  else (key, value) :: props
      | None => (key, value) :: props
      end
  end.

Definition is_proto (key : jsstring) : bool := jseqb key (js "__proto__").

(** [O[key] = value] on a plain object [O]: an own property takes the new
    value where it stands; a key the object does not own is created, after
    the keys there are (an array index: among the index keys).  The one key
    that is not created is ['__proto__']: with no own property of that name
    the assignment runs the setter of [Object.prototype], which changes the
    prototype, or nothing, and leaves the own properties as they are.
    The prototype itself is not part of [Props]: this is the assignment on
    an object that still inherits from [Object.prototype], as a header does
    until its prototype is replaced.  What is stated below about the value a
    key reads after [setHeader] leaves out the one key whose assignment
    depends on the prototype, a ['__proto__'] the header does not own. *)
Definition assign (props : Props) (key : jsstring) (value : JSValue) : Props :=
  if has_own props key then replace_own props key value
  else if is_proto key then props
  else match Sample.array_index key with
       | Some i => insert_own_index props i key value
       | None => props ++ [(key, value)]
       end.

Definition set_header (h : Props) (t : Token) : Token :=
  set_raw {| payload := payload (raw t); protectedHeaders := protectedHeaders (raw t);
             header := h; zkp := zkp (raw t) |} t.

(** [setHeader(key, value)]: [this.raw.header[key] = value]. *)
Definition setHeader (key : jsstring) (value : JSValue) (this : Token) : Token :=
  set_header (assign (header (raw this)) key value) this.

(** The order in which an object lists its keys: the array indices,
    ascending, then the other names. *)
Definition is_name (kv : jsstring * JSValue) : bool :=
  match Sample.array_index (fst kv) with
  | Some _ => false
  | None => true
  end.

Fixpoint keys_ordered (lo : Z) (props : Props) : bool :=
  match props with
  | [] => true
  | (k, v) :: rest =>
      match Sample.array_index k with
      | Some i => Z.leb lo i && keys_ordered i rest
      | None => forallb is_name rest
      end
  end.

Fixpoint distinct_keys (props : Props) : bool :=
  match props with
  | [] => true
  | (k, v) :: rest => negb (has_own rest k) && distinct_keys rest
  end.

End Headers.

(** ** More sample texts *)

Module Cases.

Import Sample.

(** A raw token whose protected header is the default header of [m1]. *)
Definition with_default_header : IRawJSONWebZeroknowledge :=
  RawJSONWebZeroknowledge payload1 default_header_text [] proof_text.

(** The compact text of [listed_absent], each part encoded. *)
Definition accepted_header_text : jsstring :=
  json_text "{'0':'x','alg':'m1','circuitId':'c1','crit':['foo']}".

Definition accepted_compact : jsstring :=
  Base64.encode accepted_header_text ++ js "." ++ Base64.encode payload1
    ++ js "." ++ Base64.encode proof_text.

(** The same payload and proof under another header that resolves to [m1]:
    more keys, another circuit. *)
Definition other_header : IRawJSONWebZeroknowledge :=
  RawJSONWebZeroknowledge payload1
    (json_text "{'0':1,'alg':'m1','circuitId':'other','crit':['x'],'exp':0}")
    [] proof_text.

(** The tokens [sanitized] yields for [listed_absent] and [other_header]. *)
Definition token_or (r : Res Token * Trace) (d : Token) : Token :=
  match fst r with
  | Ok t => t
  | Err _ => d
  end.

Definition parsed : Token := token_or (sanitized listed_absent []) fresh.
Definition parsed_other : Token := token_or (sanitized other_header []) fresh.

Definition lookup_m1 : Trace := [CallGetProvingMethod (JStr (js "m1"))].

(** A token whose three texts are Base64 and whose proof is [true]. *)
Definition scalar_token : Token :=
  set_zkProof (JBool true) (set_protectedHeaders (Some (js "abcd")) (newToken m1 (js "YQ==") None)).

End Cases.

(** * Properties *)

(** ** The built-ins *)

Lemma jseqb_eq (a b : jsstring) : jseqb a b = true <-> a = b.
Proof.
  revert b; induction a as [|x a IH]; intros [|y b]; simpl; split;
    try congruence; try reflexivity.
  - intros H. apply andb_true_iff in H as [H1 H2].
    apply N.eqb_eq in H1. apply IH in H2. congruence.
  - intros H. injection H as -> ->. rewrite N.eqb_refl. simpl. now apply IH.
Qed.

Lemma jseqb_refl (a : jsstring) : jseqb a a = true.
Proof. now apply jseqb_eq. Qed.

Lemma res_bind_err {A B} (r : Res A) (k : A -> Res B) (e : Error) :
  r = Err e -> res_bind r k = Err e.
Proof. now intros ->. Qed.

(** [atob] throws nothing but [InvalidCharacterError], and [btoa] too. *)
Lemma atob_error (s : jsstring) (e : Error) :
  atob s = Err e -> e = InvalidCharacterError.
Proof.
  unfold atob.
  destruct (Nat.eqb _ 1%nat); [congruence|].
  destruct (Base64.sextets _); congruence.
Qed.

Lemma btoa_error (s : jsstring) (e : Error) :
  btoa s = Err e -> e = InvalidCharacterError.
Proof. unfold btoa. destruct (forallb _ s); congruence. Qed.

Lemma strip_padding_head (c : N) (s : jsstring) :
  c <> Base64.pad -> exists s', Base64.strip_padding (c :: s) = c :: s'.
Proof.
  intros Hc. apply N.eqb_neq in Hc.
  unfold Base64.strip_padding. simpl rev.
  destruct (rev s) as [|p [|q r]] eqn:E; simpl.
  - rewrite Hc. now exists s.
  - destruct (N.eqb p Base64.pad); [|now exists s].
    rewrite Hc. simpl. now exists [].
  - destruct (N.eqb p Base64.pad); [|now exists s].
    destruct (N.eqb q Base64.pad).
    + rewrite rev_app_distr. simpl. now eexists.
    + simpl. rewrite !rev_app_distr. simpl. now eexists.
Qed.

(** [atob] throws on a text whose first character is outside the Base64
    alphabet and is neither whitespace nor [=]. *)
Lemma atob_bad_head (c : N) (s : jsstring) :
  Base64.dec c = None -> Base64.is_ascii_whitespace c = false -> c <> Base64.pad ->
  atob (c :: s) = Err InvalidCharacterError.
Proof.
  intros Hdec Hws Hpad. unfold atob. simpl filter. rewrite Hws. simpl negb. cbv iota.
  set (f := filter _ s).
  assert (H : exists s', (if Nat.eqb (Nat.modulo (length (c :: f)) 4) 0
                          then Base64.strip_padding (c :: f) else c :: f) = c :: s').
  { destruct (Nat.eqb _ 0%nat).
    - now apply strip_padding_head.
    - now exists f. }
  destruct H as [s' ->].
  destruct (Nat.eqb _ 1%nat); [reflexivity|].
  simpl. now rewrite Hdec.
Qed.

(** A text that starts with an opening brace is not Base64. *)
Lemma atob_brace (s : jsstring) : atob (123 :: s) = Err InvalidCharacterError.
Proof. apply atob_bad_head; [reflexivity | reflexivity | discriminate]. Qed.

Lemma split_length (sep : N) (s : jsstring) :
  length (split sep s) = S (count_occ N.eq_dec s sep).
Proof.
  induction s as [|c s IH]; [reflexivity|].
  simpl. destruct (N.eqb_spec c sep) as [->|Hne].
  - simpl. rewrite IH. destruct (N.eq_dec sep sep); congruence.
  - destruct (N.eq_dec c sep); [congruence|].
    destruct (split sep s); simpl in *; congruence.
Qed.

Lemma split_nonempty (sep : N) (s : jsstring) : split sep s <> [].
Proof.
  intros H. pose proof (split_length sep s) as L. rewrite H in L. discriminate.
Qed.

(** *** Base64 text is ASCII, and the UTF-8 bytes of ASCII text are its
    characters *)

Lemma enc_ascii (v : N) : Base64.enc v < 128.
Proof.
  unfold Base64.enc.
  destruct (N.ltb_spec v 26); [lia|].
  destruct (N.ltb_spec v 52); [lia|].
  destruct (N.ltb_spec v 62); [lia|].
  destruct (N.eqb v 62); lia.
Qed.

Lemma encode_ascii (s : bytes) : ascii_only (Base64.encode s).
Proof.
  assert (H : forall n (s : bytes), (length s <= n)%nat -> ascii_only (Base64.encode s)).
  { induction n as [|n IH]; intros [|a [|b [|c r]]] L; simpl in *;
      try lia; unfold Base64.pad;
      repeat (constructor; try apply enc_ascii; try (cbv; reflexivity)).
    apply IH. lia. }
  now apply (H (length s)).
Qed.

Lemma code_points_ascii (s : jsstring) : ascii_only s -> Utf8.code_points s = s.
Proof.
  induction 1 as [|c s Hc _ IH]; [reflexivity|].
  simpl. unfold Utf8.is_lead, Utf8.is_trail.
  destruct (N.leb_spec 55296 c); [lia|]. simpl.
  destruct (N.leb_spec 56320 c); [lia|]. simpl.
  now rewrite IH.
Qed.

Lemma utf8_ascii (s : jsstring) : ascii_only s -> Utf8.encode s = s.
Proof.
  intros H. unfold Utf8.encode. rewrite (code_points_ascii H).
  induction H as [|c s Hc _ IH]; [reflexivity|].
  simpl. unfold Utf8.encode_point at 1.
  destruct (N.ltb_spec c 128); [|lia]. simpl. now rewrite IH.
Qed.

(** *** [atob] undoes [btoa] *)

Lemma list_ind3 {A} (P : list A -> Prop) :
  P [] -> (forall a, P [a]) -> (forall a b, P [a; b]) ->
  (forall a b c r, P r -> P (a :: b :: c :: r)) ->
  forall l, P l.
Proof.
  intros H0 H1 H2 H3. fix IH 1.
  intros [|a [|b [|c r]]]; [apply H0 | apply H1 | apply H2 | apply H3, IH].
Qed.

Ltac split_tests :=
  repeat (match goal with
          | |- context [N.ltb ?a ?b] => destruct (N.ltb_spec a b)
          | |- context [N.leb ?a ?b] => destruct (N.leb_spec a b)
          | |- context [N.eqb ?a ?b] => destruct (N.eqb_spec a b)
          end; cbn [andb orb negb]; cbv beta iota).

Lemma enc_not_pad (v : N) : N.eqb (Base64.enc v) Base64.pad = false.
Proof.
  apply N.eqb_neq. unfold Base64.enc, Base64.pad. split_tests; lia.
Qed.

Lemma enc_not_whitespace (v : N) : Base64.is_ascii_whitespace (Base64.enc v) = false.
Proof.
  unfold Base64.is_ascii_whitespace.
  assert (H : 43 <= Base64.enc v) by (unfold Base64.enc; split_tests; lia).
  repeat (apply orb_false_iff; split); apply N.eqb_neq; lia.
Qed.

Lemma dec_enc (v : N) : v < 64 -> Base64.dec (Base64.enc v) = Some v.
Proof.
  intros H. unfold Base64.enc.
  split_tests; unfold Base64.dec; split_tests; try lia; f_equal; lia.
Qed.

Lemma encode_no_whitespace (s : bytes) :
  filter (fun c => negb (Base64.is_ascii_whitespace c)) (Base64.encode s) = Base64.encode s.
Proof.
  induction s as [|a|a b|a b c r IH] using list_ind3; simpl;
    rewrite ?enc_not_whitespace; simpl; rewrite ?IH; reflexivity.
Qed.

Lemma encode_length (s : bytes) : exists k, length (Base64.encode s) = (k * 4)%nat.
Proof.
  induction s as [|a|a b|a b c r [k IH]] using list_ind3.
  - now exists 0%nat.
  - now exists 1%nat.
  - now exists 1%nat.
  - exists (S k). simpl. rewrite IH. reflexivity.
Qed.

Lemma groups_length (s : bytes) :
  exists k r, length (Base64.groups s) = (r + k * 4)%nat /\
              (r = 0 \/ r = 2 \/ r = 3)%nat.
Proof.
  induction s as [|a|a b|a b c r (k & m & IH & Hm)] using list_ind3.
  - exists 0%nat, 0%nat. auto.
  - exists 0%nat, 2%nat. auto.
  - exists 0%nat, 3%nat. auto.
  - exists (S k), m. split; [|exact Hm]. simpl. rewrite IH. lia.
Qed.

Lemma strip_padding_cons (x : N) (l : jsstring) :
  (2 <= length l)%nat ->
  Base64.strip_padding (x :: l) = x :: Base64.strip_padding l.
Proof.
  intros L. unfold Base64.strip_padding. simpl rev.
  destruct (rev l) as [|p [|q r]] eqn:E.
  - apply (f_equal (@length N)) in E. rewrite length_rev in E. simpl in E. lia.
  - apply (f_equal (@length N)) in E. rewrite length_rev in E. simpl in E. lia.
  - simpl. destruct (N.eqb p Base64.pad); [|reflexivity].
    destruct (N.eqb q Base64.pad).
    + now rewrite rev_app_distr.
    + simpl. now rewrite !rev_app_distr.
Qed.

Lemma encode_strip (s : bytes) :
  Base64.strip_padding (Base64.encode s) = map Base64.enc (Base64.groups s).
Proof.
  induction s as [|a|a b|a b c r IH] using list_ind3.
  - reflexivity.
  - reflexivity.
  - unfold Base64.strip_padding. simpl. now rewrite enc_not_pad.
  - destruct r as [|d r'].
    + unfold Base64.strip_padding. simpl. now rewrite enc_not_pad.
    + assert (L : (4 <= length (Base64.encode (d :: r')))%nat).
      { destruct r' as [|e [|f r'']]; simpl; lia. }
      change (Base64.encode (a :: b :: c :: d :: r'))
        with (Base64.enc (a / 4) :: Base64.enc ((a mod 4) * 16 + b / 16)
                :: Base64.enc ((b mod 16) * 4 + c / 64) :: Base64.enc (c mod 64)
                :: Base64.encode (d :: r')).
      rewrite !strip_padding_cons by (cbn [length]; lia).
      rewrite IH. reflexivity.
Qed.

Lemma sextets_enc (vs : list N) :
  Forall (fun v => v < 64) vs -> Base64.sextets (map Base64.enc vs) = Some vs.
Proof.
  induction 1 as [|v vs Hv _ IH]; [reflexivity|].
  simpl. now rewrite (dec_enc Hv), IH.
Qed.

Lemma groups_small (s : bytes) :
  Forall (fun c => c <= 255) s -> Forall (fun v => v < 64) (Base64.groups s).
Proof.
  induction s as [|a|a b|a b c r IH] using list_ind3; intros H; simpl.
  - constructor.
  - inversion_clear H as [|? ? Ha _].
    repeat constructor;
      [apply N.Div0.div_lt_upper_bound; lia
      | pose proof (N.mod_upper_bound a 4); lia].
  - inversion_clear H as [|? ? Ha H']. inversion_clear H' as [|? ? Hb _].
    pose proof (N.mod_upper_bound a 4). pose proof (N.mod_upper_bound b 16).
    assert (b / 16 < 16) by (apply N.Div0.div_lt_upper_bound; lia).
    repeat constructor; try lia. apply N.Div0.div_lt_upper_bound; lia.
  - inversion_clear H as [|? ? Ha H']. inversion_clear H' as [|? ? Hb H''].
    inversion_clear H'' as [|? ? Hc Hr].
    pose proof (N.mod_upper_bound a 4). pose proof (N.mod_upper_bound b 16).
    pose proof (N.mod_upper_bound c 64).
    assert (b / 16 < 16) by (apply N.Div0.div_lt_upper_bound; lia).
    assert (c / 64 < 4) by (apply N.Div0.div_lt_upper_bound; lia).
    repeat constructor; try lia; [apply N.Div0.div_lt_upper_bound; lia | now apply IH].
Qed.

Lemma regroup (a d : N) : d <> 0 -> a / d * d + a mod d = a.
Proof. intros H. rewrite (N.div_mod a d) at 3 by exact H. lia. Qed.

Lemma decode_groups (s : bytes) :
  Forall (fun c => c <= 255) s -> Base64.decode (Base64.groups s) = s.
Proof.
  induction s as [|a|a b|a b c r IH] using list_ind3; intros H; simpl.
  - reflexivity.
  - rewrite N.div_mul by lia. f_equal. apply regroup. lia.
  - pose proof (regroup a (d := 4)). pose proof (regroup b (d := 16)).
    pose proof (N.mod_upper_bound a 4). pose proof (N.mod_upper_bound b 16).
    assert (b / 16 < 16).
    { inversion_clear H as [|? ? _ H']. inversion_clear H' as [|? ? Hb _].
      apply N.Div0.div_lt_upper_bound; lia. }
    assert (E1 : (a mod 4 * 16 + b / 16) / 16 = a mod 4).
    { rewrite N.div_add_l by lia. rewrite (N.div_small (b / 16)) by lia. lia. }
    assert (E2 : (a mod 4 * 16 + b / 16) mod 16 = b / 16).
    { rewrite N.add_comm, N.Div0.mod_add. apply N.mod_small. lia. }
    rewrite E1, E2. rewrite N.div_mul by lia.
    f_equal; [lia|]. f_equal. lia.
  - inversion_clear H as [|? ? Ha H']. inversion_clear H' as [|? ? Hb H''].
    inversion_clear H'' as [|? ? Hc Hr].
    pose proof (regroup a (d := 4)). pose proof (regroup b (d := 16)).
    pose proof (regroup c (d := 64)).
    pose proof (N.mod_upper_bound a 4). pose proof (N.mod_upper_bound b 16).
    pose proof (N.mod_upper_bound c 64).
    assert (b / 16 < 16) by (apply N.Div0.div_lt_upper_bound; lia).
    assert (c / 64 < 4) by (apply N.Div0.div_lt_upper_bound; lia).
    assert (E1 : (a mod 4 * 16 + b / 16) / 16 = a mod 4).
    { rewrite N.div_add_l by lia. rewrite (N.div_small (b / 16)) by lia. lia. }
    assert (E2 : (a mod 4 * 16 + b / 16) mod 16 = b / 16).
    { rewrite N.add_comm, N.Div0.mod_add. apply N.mod_small. lia. }
    assert (E3 : (b mod 16 * 4 + c / 64) / 4 = b mod 16).
    { rewrite N.div_add_l by lia. rewrite (N.div_small (c / 64)) by lia. lia. }
    assert (E4 : (b mod 16 * 4 + c / 64) mod 4 = c / 64).
    { rewrite N.add_comm, N.Div0.mod_add. apply N.mod_small. lia. }
    rewrite E1, E2, E3, E4, (IH Hr).
    f_equal; [lia|]. f_equal; [lia|]. f_equal. lia.
Qed.

(** On every text in its range, [btoa] writes a text that [atob] reads back. *)
Lemma atob_encode (s : jsstring) :
  latin1 s = true -> atob (Base64.encode s) = Ok s.
Proof.
  intros L.
  assert (B : Forall (fun c => c <= 255) s).
  { apply Forall_forall. intros c Hc. unfold latin1 in L.
    rewrite forallb_forall in L. now apply N.leb_le, L. }
  unfold atob. rewrite encode_no_whitespace.
  destruct (encode_length s) as [k ->].
  rewrite Nat.Div0.mod_mul. change (Nat.eqb 0 0) with true. cbv iota.
  rewrite encode_strip, length_map.
  destruct (groups_length s) as (k' & r & -> & Hr).
  rewrite Nat.Div0.mod_add.
  replace (Nat.eqb (Nat.modulo r 4) 1) with false
    by (destruct Hr as [-> | [-> | ->]]; reflexivity).
  rewrite (sextets_enc (groups_small B)). now rewrite (decode_groups B).
Qed.

(** ** The token *)

Section JwzProperties.

Context {NUM : Numbers} {PF : Platform}.

Lemma canonical_message_ascii (t : Token) : ascii_only (canonical_message t).
Proof.
  unfold canonical_message, ascii_only. apply Forall_app. split.
  - apply encode_ascii.
  - constructor; [reflexivity | apply encode_ascii].
Qed.

(** [getMessageHash], step by step. *)
Lemma getMessageHash_run (t : Token) (calls : Trace) :
  getMessageHash (t, calls) =
  if latin1 (header_text t) && latin1 (payload (raw t)) then
    (match hash (canonical_message t) with
     | Some n => Ok (toLittleEndian n)
     | None => Err (Rejected ByHash)
     end, (t, calls ++ [CallHash (canonical_message t)]))
  else (Err InvalidCharacterError, (t, calls)).
Proof.
  assert (E : Utf8.encode (Base64.encode (header_text t) ++ js "." ++
                           Base64.encode (payload (raw t))) = canonical_message t).
  { apply utf8_ascii. apply canonical_message_ascii. }
  unfold getMessageHash, bind, this_token, lift, call, ret, btoa, latin1.
  simpl fst. simpl snd.
  change (field_text (JSON_stringify (JObj (header (raw t))))) with (header_text t).
  destruct (forallb _ (header_text t)) eqn:Hh; [|reflexivity].
  destruct (forallb _ (payload (raw t))) eqn:Hp; [|reflexivity].
  simpl andb. cbv iota. rewrite E.
  destruct (hash (canonical_message t)); reflexivity.
Qed.

Lemma getMessageHash_token (w : World) : token_of (getMessageHash w) = fst w.
Proof.
  destruct w as [t calls]. rewrite getMessageHash_run.
  destruct (latin1 _ && latin1 _); reflexivity.
Qed.

Lemma getMessageHash_error (w : World) (e : Error) :
  result_of (getMessageHash w) = Err e ->
  e = InvalidCharacterError \/ e = Rejected ByHash.
Proof.
  destruct w as [t calls]. rewrite getMessageHash_run.
  destruct (latin1 _ && latin1 _); unfold result_of; simpl.
  - destruct (hash _); [discriminate|]. intros [= <-]. now right.
  - intros [= <-]. now left.
Qed.

(** The message hash is a function of the header and the payload alone. *)
Lemma getMessageHash_same_input (t1 t2 : Token) (calls : Trace) :
  header (raw t1) = header (raw t2) -> payload (raw t1) = payload (raw t2) ->
  result_of (getMessageHash (t1, calls)) = result_of (getMessageHash (t2, calls)) /\
  trace_of (getMessageHash (t1, calls)) = trace_of (getMessageHash (t2, calls)).
Proof.
  intros Hh Hp. rewrite !getMessageHash_run.
  unfold canonical_message, header_text. rewrite Hh, Hp.
  destruct (latin1 _ && latin1 _); split; reflexivity.
Qed.

(** *** [toLittleEndian] *)

Lemma toLittleEndian_length (n : Z) : length (toLittleEndian n) = littleEndianWidth.
Proof. unfold toLittleEndian. now rewrite length_map, length_seq. Qed.

Lemma toLittleEndian_bytes (n : Z) : Forall (fun b => b < 256) (toLittleEndian n).
Proof.
  unfold toLittleEndian. apply Forall_map, Forall_forall. intros i _.
  pose proof (Z.mod_pos_bound (n / 256 ^ Z.of_nat i) 256 eq_refl). lia.
Qed.

Lemma fromLittleEndian_digits (n : Z) (w k : nat) :
  fromLittleEndian
    (map (fun i => Z.to_N ((n / 256 ^ Z.of_nat i) mod 256)%Z) (seq k w))
  = ((n / 256 ^ Z.of_nat k) mod 256 ^ Z.of_nat w)%Z.
Proof.
  revert k. induction w as [|w IH]; intros k.
  - simpl. now rewrite Z.mod_1_r.
  - simpl map. simpl fromLittleEndian. rewrite IH.
    pose proof (Z.mod_pos_bound (n / 256 ^ Z.of_nat k) 256 eq_refl) as B.
    rewrite Z2N.id by lia.
    replace (Z.of_nat (S k)) with (Z.of_nat k + 1)%Z by lia.
    replace (Z.of_nat (S w)) with (1 + Z.of_nat w)%Z by lia.
    rewrite !Z.pow_add_r by lia. rewrite Z.pow_1_r.
    rewrite <- Z.div_div by lia.
    set (m := (n / 256 ^ Z.of_nat k)%Z).
    rewrite Z.rem_mul_r by lia. reflexivity.
Qed.

(** The bytes are the base-256 digits of the integer, lowest first, cut at
    the width. *)
Lemma toLittleEndian_value (n : Z) :
  fromLittleEndian (toLittleEndian n) = (n mod 256 ^ Z.of_nat littleEndianWidth)%Z.
Proof.
  unfold toLittleEndian. rewrite fromLittleEndian_digits.
  simpl Z.of_nat. now rewrite Z.pow_0_r, Z.div_1_r.
Qed.

(** What [getMessageHash] does where [btoa] accepts its input: for a token
    whose serialized header and payload hold no code unit above 0xFF,
    [getMessageHash] hands the hash collaborator
    the ASCII bytes of [btoa(header text) || "." || btoa(payload)], once, and
    returns the integer it answers as [littleEndianWidth] base-256 digits,
    lowest first; the token is left as it was.  (For any other token [btoa]
    throws: see [getMessageHash_outside_latin1].) *)
Theorem getMessageHash_canonical (t : Token) (calls : Trace) :
  latin1 (header_text t) && latin1 (payload (raw t)) = true ->
  ascii_only (canonical_message t) /\
  Utf8.encode (Base64.encode (header_text t) ++ js "." ++ Base64.encode (payload (raw t)))
    = canonical_message t /\
  token_of (getMessageHash (t, calls)) = t /\
  trace_of (getMessageHash (t, calls)) = calls ++ [CallHash (canonical_message t)] /\
  (forall n, hash (canonical_message t) = Some n ->
     result_of (getMessageHash (t, calls)) = Ok (toLittleEndian n) /\
     length (toLittleEndian n) = littleEndianWidth /\
     fromLittleEndian (toLittleEndian n) = (n mod 256 ^ Z.of_nat littleEndianWidth)%Z) /\
  (hash (canonical_message t) = None ->
     result_of (getMessageHash (t, calls)) = Err (Rejected ByHash)).
Proof.
  intros L. split; [apply canonical_message_ascii|].
  split; [apply utf8_ascii, canonical_message_ascii|].
  rewrite getMessageHash_run, L.
  unfold result_of, token_of, trace_of. simpl fst. simpl snd.
  repeat split.
  - now rewrite H.
  - apply toLittleEndian_length.
  - apply toLittleEndian_value.
  - now intros ->.
Qed.

(** Outside that range [btoa] throws, and the hash collaborator is not
    called. *)
Lemma getMessageHash_outside_latin1 (t : Token) (calls : Trace) :
  latin1 (header_text t) && latin1 (payload (raw t)) = false ->
  getMessageHash (t, calls) = (Err InvalidCharacterError, (t, calls)).
Proof. intros L. now rewrite getMessageHash_run, L. Qed.

(** *** [compactSerialize] *)

Lemma compactSerialize_error (t : Token) (e : Error) :
  compactSerialize t = Err e ->
  e = SerializationIncomplete \/ e = InvalidCharacterError.
Proof.
  unfold compactSerialize.
  destruct (_ || _); [intros [= <-]; now left|].
  intros H. right.
  destruct (atob (field_text (protectedHeaders (raw t)))) eqn:E1; simpl in H;
    [|injection H as <-; now apply atob_error in E1].
  destruct (atob (field_text (JSON_stringify (zkProof t)))) eqn:E2; simpl in H;
    [|injection H as <-; now apply atob_error in E2].
  destruct (atob (payload (raw t))) eqn:E3; simpl in H;
    [discriminate|injection H as <-; now apply atob_error in E3].
Qed.

(** The guard of [compactSerialize] fires exactly when the protected-headers
    text or the proof is falsy; the header, an object, never is. *)
Lemma compactSerialize_incomplete_iff (t : Token) :
  compactSerialize t = Err SerializationIncomplete <->
  truthy_field (protectedHeaders (raw t)) = false \/ truthy (zkProof t) = false.
Proof.
  unfold compactSerialize. simpl (truthy (JObj _)). simpl (negb true || _).
  destruct (truthy_field _), (truthy (zkProof t)); simpl;
    try (split; [reflexivity | now intros; auto]); try tauto.
  split; [|intros [H|H]; discriminate].
  intros H.
  destruct (atob (field_text (protectedHeaders (raw t)))) eqn:E1; simpl in H;
    [|injection H as H; apply atob_error in E1; congruence].
  destruct (atob (field_text (JSON_stringify (zkProof t)))) eqn:E2; simpl in H;
    [|injection H as H; apply atob_error in E2; congruence].
  destruct (atob (payload (raw t))) eqn:E3; simpl in H;
    [discriminate|injection H as H; apply atob_error in E3; congruence].
Qed.

(** When the protected-headers text opens with a brace, as the text of an
    object does, [compactSerialize] returns no string: [atob] refuses the
    brace. *)
Lemma compactSerialize_object_text (t : Token) (rest : jsstring) :
  protectedHeaders (raw t) = Some (123 :: rest) ->
  compactSerialize t = Err SerializationIncomplete \/
  compactSerialize t = Err InvalidCharacterError.
Proof.
  intros H. unfold compactSerialize. rewrite H.
  destruct (_ || _); [now left|]. right.
  simpl field_text. now rewrite atob_brace.
Qed.

(** A token that was never proved holds [{}] as its proof, which is truthy. *)
Lemma newToken_zkProof_truthy (m : ProvingMethod) (p : jsstring)
    (f : option ProofInputsPreparerHandlerFunc) :
  zkProof (newToken m p f) = JObj [] /\ truthy (zkProof (newToken m p f)) = true.
Proof. split; reflexivity. Qed.

(** *** [prove], step by step *)

Lemma prove_run (provingKey wasm : bytes) (t : Token) (calls : Trace) :
  prove provingKey wasm (t, calls) =
  let t1 := finalize_headers t in
  if latin1 (header_text t) && latin1 (payload (raw t)) then
    let c1 := calls ++ [CallHash (canonical_message t)] in
    match hash (canonical_message t) with
    | None => (Err (Rejected ByHash), (t1, c1))
    | Some n =>
        let h := toLittleEndian n in
        match inputsPreparer t with
        | None => (Err PrepareFunctionMissing, (t1, c1))
        | Some f =>
            let c2 := c1 ++ [CallPrepare h (circuitId t)] in
            match prepare f h (circuitId t) with
            | None => (Err (Rejected ByPrepare), (t1, c2))
            | Some inputs =>
                let c3 := c2 ++ [CallProve inputs provingKey wasm] in
                match method_prove (method t) inputs provingKey wasm with
                | None => (Err (Rejected ByMethodProve), (t1, c3))
                | Some proof =>
                    (compactSerialize (store_proof proof t1), (store_proof proof t1, c3))
                end
            end
        end
    end
  else (Err InvalidCharacterError, (t1, calls)).
Proof.
  unfold prove. unfold bind at 1. unfold this_token at 1. simpl fst.
  unfold bind at 1. unfold update_this, modify. simpl fst. simpl snd.
  fold (finalize_headers t).
  unfold bind at 1. rewrite getMessageHash_run.
  change (header_text (finalize_headers t)) with (header_text t).
  change (payload (raw (finalize_headers t))) with (payload (raw t)).
  change (canonical_message (finalize_headers t)) with (canonical_message t).
  destruct (latin1 _ && latin1 _); [|reflexivity].
  destruct (hash (canonical_message t)) as [n|]; [|reflexivity].
  destruct (inputsPreparer t) as [f|]; [|reflexivity].
  unfold bind, call, this_token, lift. simpl fst. simpl snd.
  destruct (prepare f _ _) as [inputs|]; [|reflexivity]. simpl or_reject. cbv iota.
  destruct (method_prove _ _ _ _) as [proof|]; reflexivity.
Qed.

(** With no preparer bound, [prove] returns no token text. *)
Lemma prove_unprepared (provingKey wasm : bytes) (t : Token) (calls : Trace) :
  inputsPreparer t = None ->
  is_ok (result_of (prove provingKey wasm (t, calls))) = false.
Proof.
  intros Hp. rewrite prove_run. cbv zeta. rewrite Hp.
  destruct (latin1 _ && latin1 _); [|reflexivity].
  destruct (hash _); reflexivity.
Qed.

(** When the header is written as a text that opens with a brace, [prove]
    returns no token text: with every collaborator succeeding, the final
    [compactSerialize] hands that text to [atob]. *)
Lemma prove_object_header (provingKey wasm : bytes) (t : Token) (calls : Trace)
    (rest : jsstring) :
  JSON_stringify (JObj (header (raw t))) = Some (123 :: rest) ->
  is_ok (result_of (prove provingKey wasm (t, calls))) = false.
Proof.
  intros Hb. rewrite prove_run. cbv zeta.
  destruct (latin1 _ && latin1 _); [|reflexivity].
  destruct (hash _); [|reflexivity].
  destruct (inputsPreparer t); [|reflexivity].
  destruct (prepare _ _ _); [|reflexivity].
  destruct (method_prove _ _ _ _) as [proof|]; [|reflexivity].
  unfold result_of. simpl fst.
  destruct (@compactSerialize_object_text (store_proof proof (finalize_headers t)) rest Hb)
    as [-> | ->]; reflexivity.
Qed.


(** C5, as the code has it: with no inputs-preparer bound, [prove] fails and
    never calls the proving method's [prove]; the error is the
    prepare-function-missing one when the message hash was computed, and the
    error of [getMessageHash] otherwise, since the hash is computed before the
    preparer is looked at. *)
Theorem prove_without_preparer (provingKey wasm : bytes) (t : Token) (calls : Trace) :
  inputsPreparer t = None ->
  exists e cs,
    result_of (prove provingKey wasm (t, calls)) = Err e /\
    trace_of (prove provingKey wasm (t, calls)) = calls ++ cs /\
    existsb is_CallProve cs = false /\
    (is_ok (result_of (getMessageHash (t, calls))) = true -> e = PrepareFunctionMissing) /\
    (forall e', result_of (getMessageHash (t, calls)) = Err e' -> e = e').
Proof.
  intros Hp. rewrite prove_run, getMessageHash_run. cbv zeta. rewrite Hp.
  unfold result_of, trace_of. simpl fst. simpl snd.
  destruct (latin1 _ && latin1 _).
  - destruct (hash _) as [n|]; simpl.
    + exists PrepareFunctionMissing, [CallHash (canonical_message t)].
      repeat split; try reflexivity. intros e' [=].
    + exists (Rejected ByHash), [CallHash (canonical_message t)].
      repeat split; try reflexivity; [discriminate | now intros e' [= <-]].
  - exists InvalidCharacterError, []. simpl. rewrite app_nil_r.
    repeat split; try reflexivity; [discriminate | now intros e' [= <-]].
Qed.

(** C9: [prove] stores the serialized current header as the protected-headers
    text before it looks at the preparer, so a call that fails for want of a
    preparer leaves that field updated and nothing else changed. *)
Theorem prove_finalizes_headers_first (provingKey wasm : bytes) (t : Token) (calls : Trace) :
  inputsPreparer t = None ->
  is_ok (result_of (prove provingKey wasm (t, calls))) = false /\
  token_of (prove provingKey wasm (t, calls)) = finalize_headers t /\
  protectedHeaders (raw (token_of (prove provingKey wasm (t, calls)))) =
    JSON_stringify (JObj (header (raw t))) /\
  (is_ok (result_of (getMessageHash (t, calls))) = true ->
   result_of (prove provingKey wasm (t, calls)) = Err PrepareFunctionMissing).
Proof.
  intros Hp. split; [now apply prove_unprepared|].
  rewrite prove_run, getMessageHash_run. cbv zeta. rewrite Hp.
  unfold result_of, token_of. simpl fst. simpl snd.
  destruct (latin1 _ && latin1 _); [destruct (hash _)|]; simpl;
    repeat split; try reflexivity; discriminate.
Qed.


(** C7, as the code has it: when [prove] fails for want of a preparer, in
    [getMessageHash], in the preparer or in the proving method's [prove], the
    stored proof and its serialized text are those from before the call. *)
Theorem prove_failure_keeps_proof (provingKey wasm : bytes) (t : Token) (calls : Trace) :
  fails_before_proof provingKey wasm t calls ->
  is_ok (result_of (prove provingKey wasm (t, calls))) = false /\
  zkProof (token_of (prove provingKey wasm (t, calls))) = zkProof t /\
  zkp (raw (token_of (prove provingKey wasm (t, calls)))) = zkp (raw t).
Proof.
  intros H. revert H. unfold fails_before_proof.
  rewrite prove_run, getMessageHash_run. cbv zeta.
  unfold result_of, token_of. simpl fst. simpl snd.
  destruct (latin1 _ && latin1 _); [|repeat split; reflexivity].
  destruct (hash _) as [n|]; [|repeat split; reflexivity].
  destruct (inputsPreparer t) as [f|]; [|repeat split; reflexivity].
  destruct (prepare f _ _) as [inputs|] eqn:Ef; [|repeat split; reflexivity].
  destruct (method_prove _ _ _ _) as [proof|] eqn:Em; [|repeat split; reflexivity].
  intros [H | [[e H] | (f' & h & Hf & Hh & H)]]; [discriminate | discriminate |].
  injection Hf as <-. injection Hh as <-. rewrite Ef in H.
  destruct H as [H | (inputs' & Hi & H)]; [discriminate|].
  injection Hi as <-. congruence.
Qed.

(** *** [verify] *)

(** C6, as the code has it: [verify] leaves the token as it was.  When [btoa]
    accepts the current header text and payload and the hash collaborator
    answers [n] on the canonical message, [verify] asks for that hash, hands
    the little-endian bytes of [n], the stored proof and the key to the bound
    method's [verify], once, and returns the boolean it answers.  [verify]
    returns a boolean in that case only: when [getMessageHash] fails,
    [verify] fails with the same error and the method's [verify] is not
    called. *)
Theorem verify_returns_method_answer (verificationKey : bytes) (t : Token) (calls : Trace) :
  token_of (verify verificationKey (t, calls)) = t /\
  (forall n,
     latin1 (header_text t) && latin1 (payload (raw t)) = true ->
     hash (canonical_message t) = Some n ->
     verify verificationKey (t, calls) =
       (or_reject ByMethodVerify
          (method_verify (method t) (toLittleEndian n) (zkProof t) verificationKey),
        (t, calls ++ [CallHash (canonical_message t);
                      CallVerify (toLittleEndian n) (zkProof t) verificationKey]))) /\
  (forall b, result_of (verify verificationKey (t, calls)) = Ok b ->
     exists n,
       latin1 (header_text t) && latin1 (payload (raw t)) = true /\
       hash (canonical_message t) = Some n /\
       method_verify (method t) (toLittleEndian n) (zkProof t) verificationKey = Some b) /\
  (forall e, result_of (getMessageHash (t, calls)) = Err e ->
     result_of (verify verificationKey (t, calls)) = Err e /\
     exists cs, trace_of (verify verificationKey (t, calls)) = calls ++ cs /\
                existsb is_CallVerify cs = false).
Proof.
  unfold verify, bind. rewrite getMessageHash_run.
  unfold result_of, token_of, trace_of, this_token, call. simpl fst. simpl snd.
  destruct (latin1 _ && latin1 _).
  - destruct (hash _) as [n|]; simpl.
    + repeat split.
      * intros n' _ [= <-]. now rewrite <- app_assoc.
      * intros b H. exists n. repeat split.
        destruct (method_verify _ _ _ _); simpl in H; congruence.
      * discriminate.
      * discriminate.
    + repeat split; try discriminate.
      * now injection H as <-.
      * exists [CallHash (canonical_message t)]. now split.
  - simpl. repeat split; try discriminate.
    + now injection H as <-.
    + exists []. split; [now rewrite app_nil_r | reflexivity].
Qed.


(** *** [sanitized] *)

(** The critical-header loop leaves the trace alone. *)
Lemma forEach_check_trace (headers : JSValue) (keys : list jsstring) (calls : Trace) :
  snd (forEach keys (check_critical headers) calls) = calls.
Proof.
  induction keys as [|k keys IH]; [reflexivity|].
  simpl. unfold bind at 1. unfold check_critical at 1. unfold bind, lift.
  destruct (Get headers k) as [v|e]; [|reflexivity].
  destruct (truthy v); simpl; [apply IH | reflexivity].
Qed.

(** It passes exactly when every key it is given reads a truthy value. *)
Lemma forEach_check_ok (headers : JSValue) (keys : list jsstring) (calls : Trace) :
  fst (forEach keys (check_critical headers) calls) = Ok tt <->
  Forall (fun k => exists v, Get headers k = Ok v /\ truthy v = true) keys.
Proof.
  induction keys as [|k keys IH]; [simpl; split; [constructor | reflexivity]|].
  simpl. unfold bind at 1. unfold check_critical at 1. unfold bind, lift.
  destruct (Get headers k) as [v|e] eqn:G.
  - destruct (truthy v) eqn:T; simpl.
    + rewrite IH. split.
      * intros H. constructor; [now exists v | exact H].
      * intros H. now inversion H.
    + split; [discriminate|]. intros H. apply Forall_inv in H.
      destruct H as (v' & E & T'). congruence.
  - simpl. split; [discriminate|]. intros H. apply Forall_inv in H.
    destruct H as (v' & E & _). congruence.
Qed.

Lemma forEach_check_error (headers : JSValue) (keys : list jsstring) (calls : Trace)
    (e : Error) :
  fst (forEach keys (check_critical headers) calls) = Err e ->
  e = TypeError \/ exists k, In k keys /\ e = CriticalHeaderMissing k.
Proof.
  induction keys as [|k keys IH]; [discriminate|].
  simpl forEach. unfold bind at 1. unfold check_critical at 1. unfold bind, lift.
  destruct (Get headers k) as [v|e'] eqn:G.
  - destruct (truthy v); simpl.
    + intros H. destruct (IH H) as [-> | (k' & Hin & ->)]; [now left|].
      right. exists k'. split; [now right | reflexivity].
    + intros [= <-]. right. exists k. split; [now left | reflexivity].
  - simpl. intros [= <-]. left.
    destruct headers; simpl in G; congruence.
Qed.

Lemma Get_error (v : JSValue) (key : jsstring) (e : Error) :
  Get v key = Err e -> e = TypeError.
Proof. destruct v; simpl; congruence. Qed.

Lemma Object_keys_error (v : JSValue) (e : Error) :
  Object_keys v = Err e -> e = TypeError.
Proof. destruct v; simpl; congruence. Qed.

(** A value whose ['crit'] reads neither [undefined] nor [null] is an object
    that has ['crit'] among its own properties. *)
Lemma Get_crit_is_own (v c : JSValue) :
  Get v headerCritical = Ok c -> is_ok (Object_keys c) = true ->
  exists props, v = JObj props /\ lookup props headerCritical = Some c.
Proof.
  assert (A : forall {X} (xs : list X) i, at_index xs i headerCritical = None).
  { intros X xs. induction xs as [|x xs IH]; intros i; [reflexivity|].
    simpl. destruct (jseqb (index_string i) headerCritical) eqn:E; [|apply IH].
    apply jseqb_eq in E. exfalso. unfold index_string in E.
    destruct (Nat.to_uint i); simpl in E; discriminate. }
  destruct v; simpl; try discriminate; intros [= <-];
    try (intros H; discriminate H).
  - rewrite A. simpl. intros H; discriminate H.
  - rewrite A. simpl. intros H; discriminate H.
  - destruct (lookup props headerCritical) as [c|] eqn:L.
    + intros _. now exists props.
    + intros H; discriminate H.
Qed.

(** [sanitized], step by step. *)
Lemma sanitized_run (this : IRawJSONWebZeroknowledge) (calls : Trace) :
  sanitized this calls =
  if truthy_string (payload this) then
    match JSON_parse (field_text (protectedHeaders this)) with
    | None => (Err SyntaxError, calls)
    | Some headers =>
    match Get headers headerCritical with
    | Err e => (Err e, calls)
    | Ok criticalHeaders =>
    match Object_keys criticalHeaders with
    | Err e => (Err e, calls)
    | Ok keys =>
    match fst (forEach keys (check_critical headers) calls) with
    | Err e => (Err e, calls)
    | Ok _ =>
    match Get headers headerAlg with
    | Err e => (Err e, calls)
    | Ok alg =>
    match getProvingMethod alg with
    | None => (Err (Rejected ByGetProvingMethod), calls ++ [CallGetProvingMethod alg])
    | Some method =>
    match Get headers headerCircuitId with
    | Err e => (Err e, calls ++ [CallGetProvingMethod alg])
    | Ok circuitId =>
    match JSON_parse (field_text (zkp this)) with
    | None => (Err SyntaxError, calls ++ [CallGetProvingMethod alg])
    | Some proof =>
        (Ok (set_zkProof proof (set_circuitId circuitId
               (set_alg alg (newToken method (payload this) None)))),
         calls ++ [CallGetProvingMethod alg])
    end end end end end end end end
  else (Err MissingPayload, calls).
Proof.
  unfold sanitized.
  destruct (truthy_string (payload this)); unfold negb; cbv iota; [|reflexivity].
  unfold bind at 1. unfold lift at 1. unfold JSON_parse_text at 1.
  destruct (JSON_parse (field_text (protectedHeaders this))) as [headers|]; [|reflexivity].
  unfold bind at 1. unfold lift at 1.
  destruct (Get headers headerCritical) as [crit|e1]; [|reflexivity].
  unfold bind at 1. unfold lift at 1.
  destruct (Object_keys crit) as [keys|e2]; [|reflexivity].
  unfold bind at 1.
  pose proof (forEach_check_trace headers keys calls) as Tr.
  destruct (forEach keys (check_critical headers) calls) as [[[]|e3] c3];
    simpl in Tr; subst c3; simpl fst; cbv iota; [|reflexivity].
  unfold bind at 1. unfold lift at 1.
  destruct (Get headers headerAlg) as [alg|e4]; [|reflexivity].
  unfold bind at 1. unfold call_getProvingMethod.
  destruct (getProvingMethod alg) as [m|]; simpl or_reject; cbv iota; [|reflexivity].
  unfold bind at 1. unfold lift at 1.
  destruct (Get headers headerCircuitId) as [cid|e5]; [|reflexivity].
  unfold bind at 1. unfold lift at 1. unfold JSON_parse_text.
  destruct (JSON_parse (field_text (zkp this))); reflexivity.
Qed.

(** The errors [sanitized] can end with. *)
Lemma sanitized_error (this : IRawJSONWebZeroknowledge) (calls : Trace) (e : Error) :
  fst (sanitized this calls) = Err e ->
  e = MissingPayload \/ e = SyntaxError \/ e = TypeError \/
  e = Rejected ByGetProvingMethod \/ exists k, e = CriticalHeaderMissing k.
Proof.
  rewrite sanitized_run.
  destruct (truthy_string (payload this)); [|intros [= <-]; auto].
  destruct (JSON_parse (field_text (protectedHeaders this))) as [headers|];
    [|intros [= <-]; auto].
  destruct (Get headers headerCritical) as [crit|e1] eqn:G1;
    [|intros [= <-]; apply Get_error in G1; auto].
  destruct (Object_keys crit) as [keys|e2] eqn:K;
    [|intros [= <-]; apply Object_keys_error in K; auto].
  destruct (fst (forEach keys (check_critical headers) calls)) as [[]|e3] eqn:F.
  - destruct (Get headers headerAlg) as [alg|e4] eqn:G4;
      [|intros [= <-]; apply Get_error in G4; auto].
    destruct (getProvingMethod alg) as [m|]; [|intros [= <-]; auto].
    destruct (Get headers headerCircuitId) as [cid|e5] eqn:G5;
      [|intros [= <-]; apply Get_error in G5; auto].
    destruct (JSON_parse (field_text (zkp this))); [discriminate | intros [= <-]; auto].
  - intros [= <-].
    apply forEach_check_error in F. destruct F as [-> | (k & _ & ->)]; eauto 6.
Qed.

(** C10: when the parsed protected header has no ['crit'] of its own,
    [sanitized] never yields a token: it throws for the empty payload, or
    [Object.keys] throws on the missing list (or the read of ['crit'] on a
    [null] header does). *)
Theorem sanitized_without_crit (this : IRawJSONWebZeroknowledge) (headers : JSValue)
    (calls : Trace) :
  JSON_parse (field_text (protectedHeaders this)) = Some headers ->
  own_property headers headerCritical = None ->
  exists e, sanitized this calls = (Err e, calls) /\
            (e = MissingPayload \/ e = TypeError).
Proof.
  intros P O. rewrite sanitized_run, P.
  destruct (truthy_string (payload this));
    [|exists MissingPayload; split; [reflexivity | now left]].
  exists TypeError. split; [|now right].
  destruct headers; simpl in *; try reflexivity; rewrite O; reflexivity.
Qed.

(** With an array as ['crit'], the loop reads the header at the indices of
    the array, not at the names it lists: it passes exactly when the header
    holds a truthy value under each of ['0'], ['1'], ... *)
Lemma sanitized_reads_indices (this : IRawJSONWebZeroknowledge) (props : Props)
    (items : list JSValue) (calls : Trace) :
  truthy_string (payload this) = true ->
  JSON_parse (field_text (protectedHeaders this)) = Some (JObj props) ->
  lookup props headerCritical = Some (JArr items) ->
  (Forall (fun i => exists v, Get (JObj props) (index_string i) = Ok v /\ truthy v = true)
          (seq 0 (length items)) <->
   forall k, fst (sanitized this calls) <> Err (CriticalHeaderMissing k)).
Proof.
  intros T P L.
  assert (G : Get (JObj props) headerCritical = Ok (JArr items))
    by (simpl; now rewrite L).
  rewrite sanitized_run, T, P, G.
  change (Object_keys (JArr items)) with (Ok (map index_string (seq 0 (length items)))).
  cbv iota.
  set (keys := map index_string (seq 0 (length items))).
  pose proof (forEach_check_ok (JObj props) keys calls) as Hok.
  pose proof (@forEach_check_error (JObj props) keys calls) as Herr.
  destruct (fst (forEach keys (check_critical (JObj props)) calls)) as [[]|e3] eqn:F.
  - split.
    + intros _ k.
      destruct (Get (JObj props) headerAlg) as [alg|e4] eqn:GA; [|simpl in GA; discriminate GA].
      destruct (getProvingMethod alg); [|simpl; congruence].
      destruct (Get (JObj props) headerCircuitId) eqn:GC; [|simpl in GC; discriminate GC].
      destruct (JSON_parse (field_text (zkp this))); simpl; congruence.
    + intros _. pose proof (proj1 Hok eq_refl) as H.
      unfold keys in H. rewrite Forall_map in H. exact H.
  - split.
    + intros H. exfalso.
      assert (H' : Forall (fun k => exists v, Get (JObj props) k = Ok v /\ truthy v = true)
                          keys) by (unfold keys; rewrite Forall_map; exact H).
      apply Hok in H'. discriminate.
    + intros H. exfalso.
      destruct (Herr e3 eq_refl) as [-> | (k & _ & ->)].
      * clear - F. assert (G : forall ks c, fst (forEach ks (check_critical (JObj props)) c)
                                            <> Err TypeError).
        { induction ks as [|k ks IH]; intros c; [discriminate|].
          simpl forEach. unfold bind at 1. unfold check_critical at 1.
          unfold bind, lift. simpl Get. cbv iota.
          destruct (truthy _); simpl; [apply IH | discriminate]. }
        now apply (G keys calls).
      * now apply (H k).
Qed.

(** *** [parseCompact] *)

(** C8: [parseCompact] throws the three-segments error exactly for the
    texts that do not split on [.] into three segments, that is for every
    text without exactly two periods; a text of three segments has each
    segment decoded and the decoded parts sanitized. *)
Theorem parseCompact_segments (tokenStr : jsstring) (calls : Trace) :
  length (split 46 tokenStr) = S (count_occ N.eq_dec tokenStr 46) /\
  (fst (parseCompact tokenStr calls) = Err InvalidCompactSegments <->
   length (split 46 tokenStr) <> 3%nat) /\
  (length (split 46 tokenStr) <> 3%nat ->
   parseCompact tokenStr calls = (Err InvalidCompactSegments, calls)) /\
  (forall p0 p1 p2, split 46 tokenStr = [p0; p1; p2] ->
   parseCompact tokenStr calls =
   (rawProtected <- lift (atob p0) ;;
    rawPayload <- lift (atob p1) ;;
    proof <- lift (atob p2) ;;
    sanitized (RawJSONWebZeroknowledge rawPayload rawProtected [] proof)) calls).
Proof.
  split; [apply split_length|].
  unfold parseCompact.
  destruct (Nat.eqb_spec (length (split 46 tokenStr)) 3) as [E|NE]; simpl negb; cbv iota.
  - split; [|split].
    + split; [|congruence]. intros H. exfalso. revert H.
      unfold bind at 1. unfold lift at 1.
      destruct (atob (part _ 0)) eqn:A0; [|intros [= ->]; now apply atob_error in A0].
      unfold bind at 1. unfold lift at 1.
      destruct (atob (part _ 1)) eqn:A1; [|intros [= ->]; now apply atob_error in A1].
      unfold bind at 1. unfold lift at 1.
      destruct (atob (part _ 2)) eqn:A2; [|intros [= ->]; now apply atob_error in A2].
      intros H. apply sanitized_error in H.
      destruct H as [H | [H | [H | [H | [k H]]]]]; discriminate.
    + congruence.
    + intros p0 p1 p2 ->. reflexivity.
  - split; [|split].
    + split; [now intros _ | reflexivity].
    + reflexivity.
    + intros p0 p1 p2 H. rewrite H in NE. now elim NE.
Qed.

(** *** [parse] and [parseFull] *)

(** Trimming the end does not change the first character. *)
Lemma startsWith_trim (s : jsstring) (c : N) :
  startsWith (trim s) c = startsWith (trimStart s) c.
Proof.
  unfold trim. destruct (trimStart s) as [|d r] eqn:T; [reflexivity|].
  assert (W : is_js_whitespace d = false).
  { clear - T. induction s as [|x s IH]; [discriminate|].
    simpl in T. destruct (is_js_whitespace x) eqn:Wx; [now apply IH|].
    injection T as -> _. exact Wx. }
  assert (K : forall m, exists m', trimStart (m ++ [d]) = m' ++ [d]).
  { induction m as [|x m [m' IHm]]; simpl.
    - rewrite W. now exists [].
    - destruct (is_js_whitespace x); [now exists m' | now exists (x :: m)]. }
  simpl rev. destruct (K (rev r)) as [m' ->]. rewrite rev_app_distr. reflexivity.
Qed.

(** [parse] takes the full-format path exactly when the first character that
    is not white space is an opening brace, and the compact path otherwise. *)
Lemma parse_routes (tokenStr : jsstring) (calls : Trace) :
  parse tokenStr calls =
  (if startsWith (trimStart tokenStr) 123 then parseFull tokenStr calls
   else parseCompact tokenStr calls).
Proof.
  unfold parse. rewrite startsWith_trim.
  now destruct (startsWith (trimStart tokenStr) 123).
Qed.

(** *** What the code does where the claims about the round trip, the guard
    and the critical headers fail *)

(** [prove] throws on every token whose header is written as a text that
    opens with a brace, with every collaborator: the headers are decoded
    where they should be encoded. *)
Theorem prove_throws_on_object_header (provingKey wasm : bytes) (t : Token)
    (calls : Trace) (rest : jsstring) :
  JSON_stringify (JObj (header (raw t))) = Some (123 :: rest) ->
  exists e, result_of (prove provingKey wasm (t, calls)) = Err e /\
            protectedHeaders (raw (token_of (prove provingKey wasm (t, calls)))) =
              Some (123 :: rest).
Proof.
  intros Hb.
  pose proof (prove_object_header provingKey wasm t calls Hb) as H.
  assert (P : protectedHeaders (raw (token_of (prove provingKey wasm (t, calls)))) =
              Some (123 :: rest)).
  { rewrite <- Hb. rewrite prove_run. cbv zeta. unfold token_of.
    destruct (latin1 _ && latin1 _); [|reflexivity].
    destruct (hash _); [|reflexivity].
    destruct (inputsPreparer t); [|reflexivity].
    destruct (prepare _ _ _); [|reflexivity].
    destruct (method_prove _ _ _ _); reflexivity. }
  destruct (result_of _) as [x|e]; [discriminate | now exists e].
Qed.

(** [btoa] followed by [atob] is the identity on the range of [btoa]. *)
Lemma atob_after_btoa (s : jsstring) :
  res_bind (btoa s) atob = if latin1 s then Ok s else Err InvalidCharacterError.
Proof.
  unfold btoa. fold (latin1 s). destruct (latin1 s) eqn:L; [|reflexivity].
  simpl. now apply atob_encode.
Qed.

End JwzProperties.

(** ** Headers: [setHeader] *)

Section HeaderProperties.

Context {NUM : Numbers} {PF : Platform}.

Lemma has_own_cons (k k' : jsstring) (v : JSValue) (rest : Props) :
  has_own ((k, v) :: rest) k' = jseqb k k' || has_own rest k'.
Proof. unfold has_own. simpl. now destruct (jseqb k k'). Qed.

Lemma jseqb_sym (a b : jsstring) : jseqb a b = jseqb b a.
Proof.
  destruct (jseqb a b) eqn:E.
  - apply jseqb_eq in E. subst. now rewrite jseqb_refl.
  - destruct (jseqb b a) eqn:E'; [|reflexivity].
    apply jseqb_eq in E'. subst. now rewrite jseqb_refl in E.
Qed.


Lemma lookup_replace_own (props : Props) (key k' : jsstring) (value : JSValue) :
  lookup (replace_own props key value) k' =
  if jseqb key k' then (if has_own props key then Some value else None)
  else lookup props k'.
Proof.
  induction props as [|[k v] rest IH]; simpl.
  - unfold has_own. simpl. now destruct (jseqb key k').
  - rewrite has_own_cons. destruct (jseqb k key) eqn:E; simpl.
    + apply jseqb_eq in E. subst k. now destruct (jseqb key k').
    + rewrite IH. destruct (jseqb k k') eqn:E'; [|reflexivity].
      apply jseqb_eq in E'. subst k'. now rewrite jseqb_sym, E.
Qed.

Lemma lookup_insert_own_index (props : Props) (i : Z) (key k' : jsstring)
    (value : JSValue) :
  has_own props key = false ->
  lookup (insert_own_index props i key value) k' =
  if jseqb key k' then Some value else lookup props k'.
Proof.
  induction props as [|[k v] rest IH]; intros H; simpl.
  - reflexivity.
  - rewrite has_own_cons in H. apply orb_false_iff in H as [Hk Hrest].
    destruct (Sample.array_index k) as [j|]; [destruct (Z.ltb j i)|]; simpl;
      try reflexivity.
    rewrite (IH Hrest). destruct (jseqb k k') eqn:E; [|reflexivity].
    apply jseqb_eq in E. subst k'. now rewrite jseqb_sym, Hk.
Qed.

Lemma lookup_app_one (props : Props) (key k' : jsstring) (value : JSValue) :
  has_own props key = false ->
  lookup (props ++ [(key, value)]) k' =
  if jseqb key k' then Some value else lookup props k'.
Proof.
  induction props as [|[k v] rest IH]; intros H; simpl.
  - reflexivity.
  - rewrite has_own_cons in H. apply orb_false_iff in H as [Hk Hrest].
    rewrite (IH Hrest). destruct (jseqb k k') eqn:E; [|reflexivity].
    apply jseqb_eq in E. subst k'. now rewrite jseqb_sym, Hk.
Qed.

(** What a header reads after an assignment. *)
Lemma lookup_assign (props : Props) (key k' : jsstring) (value : JSValue) :
  lookup (assign props key value) k' =
  if jseqb key k' && (has_own props key || negb (is_proto key)) then Some value
  else lookup props k'.
Proof.
  unfold assign. destruct (has_own props key) eqn:H.
  - rewrite lookup_replace_own, H. now destruct (jseqb key k').
  - destruct (is_proto key); simpl.
    + now rewrite andb_false_r.
    + rewrite andb_true_r.
      destruct (Sample.array_index key);
        [now apply lookup_insert_own_index | now apply lookup_app_one].
Qed.

Lemma has_own_assign (props : Props) (key k' : jsstring) (value : JSValue) :
  has_own (assign props key value) k' =
  (jseqb key k' && (has_own props key || negb (is_proto key))) || has_own props k'.
Proof.
  unfold has_own at 1. rewrite lookup_assign.
  destruct (jseqb key k' && _); [reflexivity|]. reflexivity.
Qed.


Lemma has_own_replace_own (props : Props) (key k' : jsstring) (value : JSValue) :
  has_own (replace_own props key value) k' = has_own props k'.
Proof.
  unfold has_own at 1. rewrite lookup_replace_own.
  destruct (jseqb key k') eqn:E; [|reflexivity].
  apply jseqb_eq in E. subst k'. now destruct (has_own props key).
Qed.

Lemma map_fst_replace_own (props : Props) (key : jsstring) (value : JSValue) :
  map fst (replace_own props key value) = map fst props.
Proof.
  induction props as [|[k v] rest IH]; [reflexivity|].
  simpl. destruct (jseqb k key); simpl; [reflexivity | now rewrite IH].
Qed.

Lemma distinct_replace_own (props : Props) (key : jsstring) (value : JSValue) :
  distinct_keys (replace_own props key value) = distinct_keys props.
Proof.
  induction props as [|[k v] rest IH]; [reflexivity|].
  simpl. destruct (jseqb k key); simpl; [reflexivity|].
  now rewrite has_own_replace_own, IH.
Qed.

Lemma distinct_insert_own_index (props : Props) (i : Z) (key : jsstring)
    (value : JSValue) :
  has_own props key = false -> distinct_keys props = true ->
  distinct_keys (insert_own_index props i key value) = true.
Proof.
  induction props as [|[k v] rest IH]; intros H D; simpl.
  - reflexivity.
  - pose proof H as H'. rewrite has_own_cons in H'.
    apply orb_false_iff in H' as [Hk Hrest].
    simpl in D. apply andb_true_iff in D as [D1 D2].
    destruct (Sample.array_index k) as [j|]; [destruct (Z.ltb j i)|]; simpl;
      try (rewrite H, D1, D2; reflexivity).
    rewrite (IH Hrest D2), andb_true_r.
    unfold has_own. rewrite lookup_insert_own_index by exact Hrest.
    rewrite jseqb_sym, Hk. exact D1.
Qed.

Lemma distinct_app_one (props : Props) (key : jsstring) (value : JSValue) :
  has_own props key = false -> distinct_keys props = true ->
  distinct_keys (props ++ [(key, value)]) = true.
Proof.
  induction props as [|[k v] rest IH]; intros H D; simpl.
  - reflexivity.
  - rewrite has_own_cons in H. apply orb_false_iff in H as [Hk Hrest].
    simpl in D. apply andb_true_iff in D as [D1 D2].
    rewrite (IH Hrest D2), andb_true_r.
    unfold has_own. rewrite lookup_app_one by exact Hrest.
    rewrite jseqb_sym, Hk. exact D1.
Qed.

Lemma read_digits_ge (s : jsstring) (acc : Z) :
  (0 <= acc -> acc <= fst (Sample.read_digits acc s))%Z.
Proof.
  revert acc. induction s as [|c s IH]; intros acc H; simpl; [lia|].
  destruct (Sample.is_digit c); simpl; [|lia].
  assert (0 <= Z.of_N (c - 48))%Z by lia.
  specialize (IH (acc * 10 + Z.of_N (c - 48))%Z). lia.
Qed.

Lemma array_index_nonneg (k : jsstring) (i : Z) :
  Sample.array_index k = Some i -> (0 <= i)%Z.
Proof.
  unfold Sample.array_index, Sample.read_natural.
  destruct k as [|c rest]; [discriminate|].
  destruct (N.eqb c 48).
  - destruct rest as [|d r].
    + intros [= <-]. lia.
    + destruct (Sample.is_digit d); discriminate.
  - destruct (Sample.is_digit c); [|discriminate].
    pose proof (@read_digits_ge (c :: rest) 0%Z (Z.le_refl 0%Z)) as G.
    destruct (Sample.read_digits 0 (c :: rest)) as [z [|x r]]; [|discriminate].
    simpl in G. destruct (Z.ltb z 4294967295); [|discriminate].
    now intros [= <-].
Qed.

Lemma names_replace_own (props : Props) (key : jsstring) (value : JSValue) :
  forallb is_name (replace_own props key value) = forallb is_name props.
Proof.
  induction props as [|[k v] rest IH]; [reflexivity|].
  simpl. destruct (jseqb k key); simpl; [reflexivity | now rewrite IH].
Qed.

Lemma ordered_replace_own (props : Props) (key : jsstring) (value : JSValue) (lo : Z) :
  keys_ordered lo (replace_own props key value) = keys_ordered lo props.
Proof.
  revert lo. induction props as [|[k v] rest IH]; intros lo; [reflexivity|].
  simpl. destruct (jseqb k key); simpl; [reflexivity|].
  destruct (Sample.array_index k); [now rewrite IH | apply names_replace_own].
Qed.

Lemma ordered_insert_own_index (props : Props) (i : Z) (key : jsstring)
    (value : JSValue) (lo : Z) :
  Sample.array_index key = Some i -> (lo <= i)%Z ->
  keys_ordered lo props = true ->
  keys_ordered lo (insert_own_index props i key value) = true.
Proof.
  intros A. revert lo. induction props as [|[k v] rest IH]; intros lo L O; simpl.
  - rewrite A. apply andb_true_iff. split; [now apply Z.leb_le | reflexivity].
  - simpl in O. destruct (Sample.array_index k) as [j|] eqn:Ak.
    + apply andb_true_iff in O as [O1 O2].
      destruct (Z.ltb_spec j i); simpl.
      * rewrite Ak, O1. simpl. apply IH; [lia | exact O2].
      * rewrite A, Ak, O2, andb_true_r.
        apply andb_true_iff. split; apply Z.leb_le; lia.
    + simpl. rewrite A, Ak, O, andb_true_r. now apply Z.leb_le.
Qed.

Lemma ordered_app_one (props : Props) (key : jsstring) (value : JSValue) (lo : Z) :
  Sample.array_index key = None ->
  keys_ordered lo props = true ->
  keys_ordered lo (props ++ [(key, value)]) = true.
Proof.
  intros A. revert lo. induction props as [|[k v] rest IH]; intros lo O; simpl.
  - now rewrite A.
  - simpl in O. destruct (Sample.array_index k).
    + apply andb_true_iff in O as [O1 O2]. rewrite O1. simpl. now apply IH.
    + rewrite forallb_app, O. simpl. unfold is_name. simpl. now rewrite A.
Qed.

(** One assignment keeps a header free of repeated names and in key order,
    and an assignment to a name the header owns keeps the list of names. *)
Lemma assign_keeps_order (props : Props) (key : jsstring) (value : JSValue) :
  distinct_keys props = true -> keys_ordered 0 props = true ->
  distinct_keys (assign props key value) = true /\
  keys_ordered 0 (assign props key value) = true /\
  (has_own props key = true -> map fst (assign props key value) = map fst props).
Proof.
  intros D O. unfold assign. destruct (has_own props key) eqn:H.
  - rewrite distinct_replace_own, ordered_replace_own, map_fst_replace_own. auto.
  - destruct (is_proto key); [repeat split; auto; discriminate|].
    destruct (Sample.array_index key) as [i|] eqn:A.
    + repeat split; [now apply distinct_insert_own_index | | discriminate].
      apply ordered_insert_own_index; auto. now apply array_index_nonneg in A.
    + repeat split; [now apply distinct_app_one | now apply ordered_app_one
                    | discriminate].
Qed.

(** The header of a token built by the constructor and changed by any
    sequence of [setHeader] calls never holds a name twice, and lists the
    array-index keys first, in ascending order: the order in which
    [JSON.stringify] writes it for [prove] and for the message hash. *)
Theorem setHeader_keeps_header_shape (m : ProvingMethod) (p : jsstring)
    (f : option ProofInputsPreparerHandlerFunc) (calls : list (jsstring * JSValue)) :
  let t := fold_left (fun t kv => setHeader (fst kv) (snd kv) t) calls (newToken m p f) in
  distinct_keys (header (raw t)) = true /\ keys_ordered 0 (header (raw t)) = true.
Proof.
  cbv zeta.
  assert (G : forall t, distinct_keys (header (raw t)) = true ->
                        keys_ordered 0 (header (raw t)) = true ->
            distinct_keys (header (raw (fold_left
              (fun t kv => setHeader (fst kv) (snd kv) t) calls t))) = true /\
            keys_ordered 0 (header (raw (fold_left
              (fun t kv => setHeader (fst kv) (snd kv) t) calls t))) = true).
  { induction calls as [|[k v] rest IH]; intros t D O; [now split|].
    simpl fold_left. apply IH; simpl;
      now destruct (assign_keeps_order (header (raw t)) k v D O) as (? & ? & _). }
  apply G; reflexivity.
Qed.

(** Assigning to a name the header owns changes no position: the names are
    listed as before. *)
Theorem setHeader_override_keeps_names (key : jsstring) (value : JSValue) (this : Token) :
  has_own (header (raw this)) key = true ->
  map fst (header (raw (setHeader key value this))) = map fst (header (raw this)) /\
  lookup (header (raw (setHeader key value this))) key = Some value.
Proof.
  intros H. simpl. unfold assign. rewrite H.
  split; [apply map_fst_replace_own|].
  now rewrite lookup_replace_own, jseqb_refl, H.
Qed.

End HeaderProperties.

(** ** The methods together *)

Section Compositions.

Context {NUM : Numbers} {PF : Platform}.

(** *** The hash input determines the header text and the payload *)

Lemma enc_not_dot (v : N) : Base64.enc v <> 46.
Proof. unfold Base64.enc. split_tests; lia. Qed.

Lemma encode_no_dot (s : bytes) : ~ In 46 (Base64.encode s).
Proof.
  induction s as [|a|a b|a b c r IH] using list_ind3; simpl; intros H;
    repeat (destruct H as [H|H];
            [first [exact (enc_not_dot _ H) | discriminate H]|]);
    try contradiction.
Qed.

Lemma app_dot_inj (a a' b b' : list N) :
  ~ In 46 a -> ~ In 46 a' -> a ++ 46 :: b = a' ++ 46 :: b' -> a = a' /\ b = b'.
Proof.
  revert a'. induction a as [|x a IH]; intros [|y a'] Ha Ha' E; simpl in *.
  - injection E as ->. now split.
  - injection E as <- _. exfalso. apply Ha'. now left.
  - injection E as -> _. exfalso. apply Ha. now left.
  - injection E as -> E.
    destruct (IH a') as [-> ->]; auto.
Qed.

Lemma encode_injective (s s' : jsstring) :
  latin1 s = true -> latin1 s' = true ->
  Base64.encode s = Base64.encode s' -> s = s'.
Proof.
  intros L L' E. pose proof (atob_encode s L) as A.
  rewrite E, (atob_encode s' L') in A. congruence.
Qed.

Lemma canonical_message_injective (t1 t2 : Token) :
  latin1 (header_text t1) && latin1 (payload (raw t1)) = true ->
  latin1 (header_text t2) && latin1 (payload (raw t2)) = true ->
  canonical_message t1 = canonical_message t2 ->
  header_text t1 = header_text t2 /\ payload (raw t1) = payload (raw t2).
Proof.
  intros L1 L2 E.
  apply andb_true_iff in L1 as [H1 P1]. apply andb_true_iff in L2 as [H2 P2].
  unfold canonical_message in E.
  apply app_dot_inj in E as [Eh Ep]; try apply encode_no_dot.
  split; now apply encode_injective.
Qed.

Lemma message_of_trace (t : Token) (calls : Trace) (message : bytes) :
  trace_of (getMessageHash (t, calls)) = calls ++ [CallHash message] ->
  latin1 (header_text t) && latin1 (payload (raw t)) = true /\
  message = canonical_message t.
Proof.
  rewrite getMessageHash_run. unfold trace_of.
  destruct (latin1 _ && latin1 _); simpl snd; intros H.
  - apply app_inv_head in H. injection H as <-. now split.
  - apply (f_equal (@length Call)) in H. rewrite length_app in H. simpl in H. lia.
Qed.

Lemma hash_input_text (t1 t2 : Token) (c1 c2 : Trace) (message : bytes) :
  trace_of (getMessageHash (t1, c1)) = c1 ++ [CallHash message] ->
  trace_of (getMessageHash (t2, c2)) = c2 ++ [CallHash message] ->
  header_text t2 = header_text t1 /\ payload (raw t2) = payload (raw t1).
Proof.
  intros H1 H2.
  apply message_of_trace in H1 as [L1 E1]. apply message_of_trace in H2 as [L2 E2].
  apply canonical_message_injective; congruence.
Qed.

(** Two calls of [getMessageHash] that hand the hash collaborator the same
    message were made on tokens with the same serialized header and the same
    payload: the period separates the two Base64 parts without ambiguity. *)
Theorem hash_input_determines_header_and_payload (t1 t2 : Token) (c1 c2 : Trace)
    (message : bytes) :
  trace_of (getMessageHash (t1, c1)) = c1 ++ [CallHash message] ->
  trace_of (getMessageHash (t2, c2)) = c2 ++ [CallHash message] ->
  header_text t1 = header_text t2 /\ payload (raw t1) = payload (raw t2).
Proof.
  intros H1 H2.
  destruct (@hash_input_text t2 t1 c2 c1 message H2 H1) as [Eh Ep]. now split.
Qed.

(** After a [setHeader] that changes the serialized header, [getMessageHash]
    (and so [verify]) hands the hash collaborator a different message. *)
Theorem setHeader_changes_hash_input (key : jsstring) (value : JSValue) (t : Token)
    (c c' : Trace) (message message' : bytes) :
  header_text (setHeader key value t) <> header_text t ->
  trace_of (getMessageHash (t, c)) = c ++ [CallHash message] ->
  trace_of (getMessageHash (setHeader key value t, c')) = c' ++ [CallHash message'] ->
  message <> message'.
Proof.
  intros D H1 H2 E. subst message'.
  destruct (@hash_input_text t (setHeader key value t) c c' message H1 H2) as [Eh _].
  now apply D.
Qed.

(** *** When [compactSerialize] returns *)

(** [compactSerialize] returns a text only when the protected-headers text,
    the JSON text of the proof and the payload are each accepted by [atob],
    and what it returns is their decodings, joined by periods, and not their
    encodings.  So it returns for no proof whose JSON text opens with a
    brace, a bracket or a quote, as the texts of objects, arrays and strings
    do. *)
Theorem compactSerialize_returns_decodings (t : Token) (s : jsstring) :
  compactSerialize t = Ok s ->
  truthy_field (protectedHeaders (raw t)) = true /\
  truthy (zkProof t) = true /\
  (exists h z p,
     atob (field_text (protectedHeaders (raw t))) = Ok h /\
     atob (field_text (JSON_stringify (zkProof t))) = Ok z /\
     atob (payload (raw t)) = Ok p /\
     s = h ++ js "." ++ p ++ js "." ++ z) /\
  (forall c rest, field_text (JSON_stringify (zkProof t)) = c :: rest ->
                  c <> 123 /\ c <> 91 /\ c <> 34).
Proof.
  intros H. unfold compactSerialize in H.
  change (truthy (JObj (header (raw t)))) with true in H.
  destruct (truthy_field (protectedHeaders (raw t))) eqn:TF; [|discriminate H].
  destruct (truthy (zkProof t)) eqn:TZ; [|discriminate H].
  simpl in H.
  destruct (atob (field_text (protectedHeaders (raw t)))) as [h|e]; [|discriminate H].
  simpl in H.
  destruct (atob (field_text (JSON_stringify (zkProof t)))) as [z|e] eqn:Az;
    [|discriminate H].
  simpl in H.
  destruct (atob (payload (raw t))) as [p|e]; [|discriminate H].
  simpl in H. injection H as <-.
  repeat split; try reflexivity.
  - now exists h, z, p.
  - intros ->. rewrite H in Az.
    rewrite atob_bad_head in Az by (reflexivity || discriminate).
    discriminate Az.
  - intros ->. rewrite H in Az.
    rewrite atob_bad_head in Az by (reflexivity || discriminate).
    discriminate Az.
  - intros ->. rewrite H in Az.
    rewrite atob_bad_head in Az by (reflexivity || discriminate).
    discriminate Az.
Qed.

(** *** What [sanitized] yields *)

Lemma sanitized_ok (this : IRawJSONWebZeroknowledge) (calls calls' : Trace) (t : Token) :
  sanitized this calls = (Ok t, calls') ->
  exists headers a m c z,
    truthy_string (payload this) = true /\
    JSON_parse (field_text (protectedHeaders this)) = Some headers /\
    Get headers headerAlg = Ok a /\
    getProvingMethod a = Some m /\
    Get headers headerCircuitId = Ok c /\
    JSON_parse (field_text (zkp this)) = Some z /\
    t = set_zkProof z (set_circuitId c (set_alg a (newToken m (payload this) None))) /\
    calls' = calls ++ [CallGetProvingMethod a].
Proof.
  rewrite sanitized_run.
  destruct (truthy_string (payload this)) eqn:T; [|discriminate].
  destruct (JSON_parse (field_text (protectedHeaders this))) as [headers|] eqn:P;
    [|discriminate].
  destruct (Get headers headerCritical) as [crit|]; [|discriminate].
  destruct (Object_keys crit) as [keys|]; [|discriminate].
  destruct (fst (forEach keys (check_critical headers) calls)); [|discriminate].
  destruct (Get headers headerAlg) as [al|] eqn:Ga; [|discriminate].
  destruct (getProvingMethod al) as [m|] eqn:Gm; [|discriminate].
  destruct (Get headers headerCircuitId) as [ci|] eqn:Gc; [|discriminate].
  destruct (JSON_parse (field_text (zkp this))) as [z|] eqn:Pz; [|discriminate].
  intros [= <- <-]. exists headers, al, m, ci, z. repeat split; auto.
Qed.

(** The token [sanitized] yields carries the payload of the raw token, the
    parsed proof, and the [alg] and [circuitId] the header holds (the
    [circuitId] is not compared with the method's); its header is not the
    one that was parsed but the default header of the resolved method; it has
    no protected-headers text, no proof text and no preparer. *)
Theorem sanitized_token (this : IRawJSONWebZeroknowledge) (calls calls' : Trace)
    (t : Token) :
  sanitized this calls = (Ok t, calls') ->
  payload (raw t) = payload this /\
  header (raw t) = getDefaultHeaders (JStr (method_alg (method t)))
                                     (JStr (method_circuitId (method t))) /\
  protectedHeaders (raw t) = None /\ zkp (raw t) = None /\
  inputsPreparer t = None /\
  JSON_parse (field_text (zkp this)) = Some (zkProof t) /\
  getProvingMethod (alg t) = Some (method t) /\
  (exists headers, JSON_parse (field_text (protectedHeaders this)) = Some headers /\
                   Get headers headerAlg = Ok (alg t) /\
                   Get headers headerCircuitId = Ok (circuitId t)) /\
  calls' = calls ++ [CallGetProvingMethod (alg t)].
Proof.
  intros H. apply sanitized_ok in H.
  destruct H as (headers & a & m & c & z & _ & P & Ga & Gm & Gc & Pz & -> & ->).
  simpl. repeat split; auto. now exists headers.
Qed.

(** A parsed token cannot be written back or proved: [compactSerialize]
    throws the serialization-incomplete error on it, and [prove] fails
    without calling the proving method and leaves the parsed proof in place. *)
Theorem parsed_token_is_read_only (this : IRawJSONWebZeroknowledge)
    (calls calls' : Trace) (t : Token) :
  sanitized this calls = (Ok t, calls') ->
  compactSerialize t = Err SerializationIncomplete /\
  forall provingKey wasm c,
    is_ok (result_of (prove provingKey wasm (t, c))) = false /\
    zkProof (token_of (prove provingKey wasm (t, c))) = zkProof t /\
    existsb is_CallProve (trace_of (prove provingKey wasm (t, c))) = existsb is_CallProve c.
Proof.
  intros H. apply sanitized_ok in H.
  destruct H as (headers & a & m & c & z & _ & _ & _ & _ & _ & _ & -> & _).
  split; [reflexivity|].
  intros pk wasm c0. split; [now apply prove_unprepared|].
  rewrite prove_run. cbv zeta. simpl inputsPreparer.
  unfold token_of, trace_of.
  destruct (latin1 _ && latin1 _); [|split; reflexivity].
  destruct (hash _); simpl; (split; [reflexivity|]);
    rewrite existsb_app; simpl; now rewrite orb_false_r.
Qed.

(** *** [verify] reads the header, the payload, the proof and the method *)

Lemma verify_frame (t1 t2 : Token) (key : bytes) (calls : Trace) :
  header (raw t1) = header (raw t2) -> payload (raw t1) = payload (raw t2) ->
  zkProof t1 = zkProof t2 -> method t1 = method t2 ->
  result_of (verify key (t1, calls)) = result_of (verify key (t2, calls)) /\
  trace_of (verify key (t1, calls)) = trace_of (verify key (t2, calls)).
Proof.
  intros Hh Hp Hz Hm. unfold verify, bind. rewrite !getMessageHash_run.
  unfold canonical_message, header_text. rewrite Hh, Hp.
  destruct (latin1 _ && latin1 _); [|split; reflexivity].
  destruct (hash _); [|split; reflexivity].
  unfold this_token, call, result_of, trace_of. simpl. rewrite Hz, Hm.
  split; reflexivity.
Qed.

(** Verification of a parsed token does not depend on the protected header
    that was received, beyond the method it resolved to: two raw tokens with
    the same payload and proof text whose headers resolve to the same method
    verify alike, whatever else the headers hold. *)
Theorem verify_ignores_received_header (r1 r2 : IRawJSONWebZeroknowledge)
    (c1 c1' c2 c2' : Trace) (t1 t2 : Token) (key : bytes) (calls : Trace) :
  sanitized r1 c1 = (Ok t1, c1') -> sanitized r2 c2 = (Ok t2, c2') ->
  payload r1 = payload r2 -> zkp r1 = zkp r2 -> method t1 = method t2 ->
  result_of (verify key (t1, calls)) = result_of (verify key (t2, calls)) /\
  trace_of (verify key (t1, calls)) = trace_of (verify key (t2, calls)).
Proof.
  intros S1 S2 Hp Hz Hm.
  apply sanitized_ok in S1. apply sanitized_ok in S2.
  destruct S1 as (h1 & a1 & m1 & x1 & z1 & _ & _ & _ & _ & _ & P1 & -> & _).
  destruct S2 as (h2 & a2 & m2 & x2 & z2 & _ & _ & _ & _ & _ & P2 & -> & _).
  simpl in Hm. subst m2.
  apply verify_frame; simpl; try congruence.
Qed.

(** *** The default header is not accepted back *)

(** The header the constructor builds, for any method, lists ['circuitId']
    as critical and holds it; [sanitized] refuses a raw token whose protected
    header parses to it, naming the header ['0']. *)
Theorem sanitized_refuses_default_header (this : IRawJSONWebZeroknowledge)
    (a c : JSValue) (calls : Trace) :
  truthy_string (payload this) = true ->
  JSON_parse (field_text (protectedHeaders this)) = Some (JObj (getDefaultHeaders a c)) ->
  sanitized this calls = (Err (CriticalHeaderMissing (js "0")), calls).
Proof.
  intros T P. rewrite sanitized_run, T, P. reflexivity.
Qed.

(** *** [fullSerialize] and [parse] *)

(** What [fullSerialize] writes is never parsed back: it starts with an
    opening brace, so [parse] takes the full-format path, which yields no
    token. *)
Theorem parse_refuses_fullSerialize (t : Token) (calls : Trace) :
  exists text, fullSerialize t = Some text /\
               startsWith text 123 = true /\
               is_ok (fst (parse text calls)) = false.
Proof.
  unfold fullSerialize, raw_object. simpl JSON_stringify.
  eexists. split; [reflexivity|]. split; [reflexivity|].
  unfold parse. rewrite startsWith_trim. simpl startsWith. cbv iota.
  unfold parseFull, bind, lift, throw, JSON_parse_text.
  destruct (JSON_parse _) as [v|]; [|reflexivity].
  destruct (Get v (js "sanitized")); reflexivity.
Qed.

(** A text that [parse] accepts has exactly three segments, does not start
    with an opening brace once trimmed, and its segments are Base64: the
    token holds the decoded second segment as payload and the JSON value of
    the decoded third as proof. *)
Theorem parse_accepts (tokenStr : jsstring) (calls calls' : Trace) (t : Token) :
  parse tokenStr calls = (Ok t, calls') ->
  startsWith (trimStart tokenStr) 123 = false /\
  exists p0 p1 p2 h z,
    split 46 tokenStr = [p0; p1; p2] /\
    atob p0 = Ok h /\ atob p1 = Ok (payload (raw t)) /\ atob p2 = Ok z /\
    JSON_parse z = Some (zkProof t) /\
    sanitized (RawJSONWebZeroknowledge (payload (raw t)) h [] z) calls = (Ok t, calls').
Proof.
  unfold parse. rewrite startsWith_trim.
  destruct (startsWith (trimStart tokenStr) 123).
  - unfold parseFull, bind, lift, throw, JSON_parse_text.
    destruct (JSON_parse tokenStr) as [v|]; [|discriminate].
    destruct (Get v (js "sanitized")); discriminate.
  - intros H. split; [reflexivity|]. revert H. unfold parseCompact.
    destruct (split 46 tokenStr) as [|p0 [|p1 [|p2 [|p3 rest]]]]; try discriminate.
    change (negb (Nat.eqb (length [p0; p1; p2]) 3)) with false. cbv iota.
    change (part [p0; p1; p2] 0) with p0. change (part [p0; p1; p2] 1) with p1.
    change (part [p0; p1; p2] 2) with p2.
    unfold bind at 1. unfold lift at 1.
    destruct (atob p0) as [h|] eqn:A0; [|discriminate].
    unfold bind at 1. unfold lift at 1.
    destruct (atob p1) as [p|] eqn:A1; [|discriminate].
    unfold bind at 1. unfold lift at 1.
    destruct (atob p2) as [z|] eqn:A2; [|discriminate].
    intros S. pose proof (sanitized_ok _ _ S) as I.
    destruct I as (hd & a & m & c & z' & _ & _ & _ & _ & _ & Pz & -> & _).
    simpl in *. exists p0, p1, p2, h, z. repeat split; auto.
Qed.

(** *** The collaborators [prove] calls *)

(** [prove] calls the hash collaborator, then the preparer, then the proving
    method, each once and in that order, and each exactly when the step
    before it has succeeded: the hash collaborator when [btoa] has accepted
    the header text and the payload, the preparer when the hash was obtained
    and a preparer is bound, the proving method when the preparer has
    answered.  It calls neither the registry nor the method's [verify]. *)
Theorem prove_calls_in_order (provingKey wasm : bytes) (t : Token) (calls : Trace) :
  trace_of (prove provingKey wasm (t, calls)) =
    calls ++
    (if latin1 (header_text t) && latin1 (payload (raw t)) then
       CallHash (canonical_message t) ::
       match hash (canonical_message t), inputsPreparer t with
       | Some n, Some f =>
           CallPrepare (toLittleEndian n) (circuitId t) ::
           match prepare f (toLittleEndian n) (circuitId t) with
           | Some inputs => [CallProve inputs provingKey wasm]
           | None => []
           end
       | _, _ => []
       end
     else []).
Proof.
  rewrite prove_run. cbv zeta. unfold trace_of.
  destruct (latin1 _ && latin1 _); simpl snd; [|now rewrite app_nil_r].
  destruct (hash (canonical_message t)) as [n|]; [|reflexivity].
  destruct (inputsPreparer t) as [f|]; [|reflexivity].
  destruct (prepare f (toLittleEndian n) (circuitId t)) as [inputs|].
  - destruct (method_prove _ _ _ _); simpl; now rewrite <- !app_assoc.
  - simpl. now rewrite <- app_assoc.
Qed.

End Compositions.

(** ** Runs on the sample platform *)

Import Sample.

Example base64_vectors :
  map Base64.encode (map js ["f"; "fo"; "foo"; "foob"; "fooba"; "foobar"]%string) =
  map js ["Zg=="; "Zm8="; "Zm9v"; "Zm9vYg=="; "Zm9vYmE="; "Zm9vYmFy"]%string.
Proof. reflexivity. Qed.

Example atob_vectors :
  map atob (map js ["Zg=="; "Zg"; "Zm8="; " Zm9v "; "Zm9vYmFy"]%string) =
  map (fun s => Ok (js s)) ["f"; "f"; "fo"; "foo"; "foobar"]%string /\
  map atob (map js ["Z"; "Zg="; "Zg==="; "Z=g="; "{}"]%string) =
  map (fun _ => Err InvalidCharacterError) [1; 2; 3; 4; 5].
Proof. split; reflexivity. Qed.

Example split_vectors :
  map (split 46) (map js [""; "A"; "A.B"; "A.B.C"; "a..b."]%string) =
  [ [[]]; [js "A"]; [js "A"; js "B"]; [js "A"; js "B"; js "C"];
    [js "a"; []; js "b"; []] ].
Proof. reflexivity. Qed.

Example read_json_header :
  read_json (json_text "{'alg':'m1','circuitId':'c1','crit':['circuitId','foo']}") =
  Some (JObj [ (js "alg", JStr (js "m1")); (js "circuitId", JStr (js "c1"));
               (js "crit", JArr [JStr (js "circuitId"); JStr (js "foo")]) ]).
Proof. reflexivity. Qed.

Example stringify_default_headers :
  JSON_stringify (JObj (header (raw fresh))) = Some default_header_text.
Proof. reflexivity. Qed.

(** *** The round trip (C1) *)

(** C1 fails on the code: [prove] on the token of the specification's
    scenario (method [m1], circuit [c1], payload [{"id":1}]) obtains a proof
    and stores it, and the token then has its header, its protected-headers
    text and its proof; but [compactSerialize] hands these texts to [atob],
    which throws on the opening brace, so there is no string to parse. *)
Theorem compactSerialize_throws_on_proved_token :
  trace_of (prove [] [] (fresh, [])) <> [] /\
  existsb is_CallProve (trace_of (prove [] [] (fresh, []))) = true /\
  protectedHeaders (raw proved) = Some default_header_text /\
  zkp (raw proved) = Some proof_text /\
  JSON_stringify (zkProof proved) = Some proof_text /\
  compactSerialize proved = Err InvalidCharacterError /\
  result_of (prove [] [] (fresh, [])) = Err InvalidCharacterError.
Proof. repeat split; try reflexivity. discriminate. Qed.

(** Nor is the text an encoding serializer would write for that token parsed
    back: [sanitized] looks for a header named ['0']. *)
Lemma encoded_compact_not_parsed :
  exists text, encoded_compact = Ok text /\
               fst (parseCompact text []) = Err (CriticalHeaderMissing (js "0")).
Proof. eexists. split; reflexivity. Qed.

(** *** The critical headers (C2, C10) *)

(** C2 fails on the code, both ways: a header that holds every name its
    ['crit'] lists is refused, the missing name being ['0']; a header whose
    ['crit'] lists ['foo'], which it lacks, is accepted because it has a
    key ['0']. *)
Theorem sanitized_checks_positions_not_names :
  fst (sanitized listed_present []) = Err (CriticalHeaderMissing (js "0")) /\
  is_ok (fst (sanitized listed_absent [])) = true /\
  snd (sanitized listed_absent []) = [CallGetProvingMethod (JStr (js "m1"))].
Proof. repeat split; reflexivity. Qed.

Lemma sanitized_without_crit_witness :
  JSON_parse (field_text (protectedHeaders without_crit)) =
    Some (JObj [ (js "alg", JStr (js "m1")); (js "circuitId", JStr (js "c1"));
                 (js "typ", JStr (js "JWZ")) ]) /\
  exists e, sanitized without_crit [] = (Err e, []) /\
            (e = MissingPayload \/ e = TypeError).
Proof.
  split; [reflexivity|].
  apply (@sanitized_without_crit integers platform without_crit
           (JObj [ (js "alg", JStr (js "m1")); (js "circuitId", JStr (js "c1"));
                   (js "typ", JStr (js "JWZ")) ]) []); reflexivity.
Defined.

Lemma sanitized_reads_indices_witness :
  (Forall (fun i => exists v,
             Get (JObj [ (js "0", JStr (js "x")); (js "alg", JStr (js "m1"));
                         (js "circuitId", JStr (js "c1"));
                         (js "crit", JArr [JStr (js "foo")]) ])
                 (index_string i) = Ok v /\ truthy v = true)
          (seq 0 1) <->
   forall k, fst (sanitized listed_absent []) <> Err (CriticalHeaderMissing k)).
Proof.
  apply (@sanitized_reads_indices integers platform listed_absent
           [ (js "0", JStr (js "x")); (js "alg", JStr (js "m1"));
             (js "circuitId", JStr (js "c1")); (js "crit", JArr [JStr (js "foo")]) ]
           [JStr (js "foo")] []); reflexivity.
Defined.

(** The scenario of the specification with ['crit'] listing ['circuitId'] and
    ['foo']: the name in the error is ['0'], not ['foo']. *)
Example sanitized_scenario_foo :
  fst (sanitized
         (RawJSONWebZeroknowledge payload1
            (json_text "{'alg':'m1','circuitId':'c1','crit':['circuitId','foo']}")
            [] proof_text) []) = Err (CriticalHeaderMissing (js "0")).
Proof. reflexivity. Qed.

(** After [prove] (which throws), [fullSerialize] shows the finalized
    header. *)
Example fullSerialize_proved :
  exists rest,
    fullSerialize proved =
    Some (json_text "{'header':{'alg':'m1','crit':['circuitId'],'circuitId':'c1','typ':'JWZ'},'payload':"
          ++ rest).
Proof. eexists. reflexivity. Qed.

(** *** The guard of [compactSerialize] (C3) *)

(** C3 fails on the code: [attempted] was never proved (its [prove] stopped
    for want of a preparer, the proving method was not called, the proof is
    the [{}] of the constructor and no proof text is stored), yet
    [compactSerialize] does not throw the serialization-incomplete error on
    it: the guard passes and [atob] throws. *)
Theorem compactSerialize_guard_misses_absent_proof :
  result_of (prove [] [] (unprepared, [])) = Err PrepareFunctionMissing /\
  existsb is_CallProve (trace_of (prove [] [] (unprepared, []))) = false /\
  zkProof attempted = JObj [] /\
  zkp (raw attempted) = None /\
  compactSerialize attempted = Err InvalidCharacterError /\
  compactSerialize attempted <> Err SerializationIncomplete.
Proof. repeat split; try reflexivity. discriminate. Qed.

(** *** The message hash *)

(** C4: the hash input is to be the encoding of the UTF-8 bytes of the header
    text and of the payload, which exists for every text.  The code hands
    the texts to [btoa] as they are: on [euro], whose payload is the one
    character U+20AC, [btoa] throws, no message is built and the hash
    collaborator is not called. *)
Lemma getMessageHash_euro :
  getMessageHash (euro, []) = (Err InvalidCharacterError, (euro, [])).
Proof. reflexivity. Qed.

(** Where [btoa] accepts the texts, the message is written in the standard
    alphabet, with padding. *)
Lemma getMessageHash_canonical_witness :
  latin1 (header_text fresh) && latin1 (payload (raw fresh)) = true /\
  result_of (getMessageHash (fresh, [])) = Ok (toLittleEndian 8687) /\
  trace_of (getMessageHash (fresh, [])) =
    [CallHash (js "eyJhbGciOiJtMSIsImNyaXQiOlsiY2lyY3VpdElkIl0sImNpcmN1aXRJZCI6ImMxIiwidHlwIjoiSldaIn0=.eyJpZCI6MX0=")].
Proof.
  split; [reflexivity|].
  destruct (@getMessageHash_canonical integers platform fresh [] eq_refl)
    as (_ & _ & _ & Tr & Hn & _).
  split; [apply (Hn 8687%Z); reflexivity | exact Tr].
Defined.

(** *** [prove] without a preparer (C5, C9) and failing (C7) *)

(** With no preparer bound, [prove] on [euro] fails in [getMessageHash], with
    the error of [btoa] and not the prepare-function-missing one. *)
Lemma prove_unprepared_euro :
  inputsPreparer euro = None /\
  result_of (prove [] [] (euro, [])) = Err InvalidCharacterError /\
  result_of (prove [] [] (euro, [])) <> Err PrepareFunctionMissing.
Proof. repeat split; try reflexivity. discriminate. Qed.

(** So does it on [unprepared] when the hash collaborator rejects. *)
Lemma prove_unprepared_hash_down :
  inputsPreparer unprepared = None /\
  result_of (@prove integers platform_hash_down [] [] (unprepared, [])) =
    Err (Rejected ByHash).
Proof. split; reflexivity. Qed.

Lemma prove_without_preparer_witness :
  inputsPreparer unprepared = None /\
  exists e cs,
    result_of (prove [] [] (unprepared, [])) = Err e /\
    trace_of (prove [] [] (unprepared, [])) = [] ++ cs /\
    existsb is_CallProve cs = false /\
    (is_ok (result_of (getMessageHash (unprepared, []))) = true ->
     e = PrepareFunctionMissing) /\
    (forall e', result_of (getMessageHash (unprepared, [])) = Err e' -> e = e').
Proof.
  split; [reflexivity|].
  apply (@prove_without_preparer integers platform [] [] unprepared []). reflexivity.
Defined.

Lemma prove_finalizes_headers_first_witness :
  protectedHeaders (raw unprepared) = None /\
  protectedHeaders (raw (token_of (prove [] [] (unprepared, [])))) =
    Some default_header_text /\
  result_of (prove [] [] (unprepared, [])) = Err PrepareFunctionMissing.
Proof.
  destruct (@prove_finalizes_headers_first integers platform [] [] unprepared []
              eq_refl) as (_ & _ & H & E).
  split; [reflexivity|]. split; [exact H | apply E; reflexivity].
Defined.

(** [prove] on [fresh] fails, at its last step, and the token holds a proof
    and a proof text it did not hold before. *)
Lemma prove_fails_with_proof_stored :
  is_ok (result_of (prove [] [] (fresh, []))) = false /\
  zkProof fresh = JObj [] /\ zkp (raw fresh) = None /\
  zkProof (token_of (prove [] [] (fresh, []))) <> zkProof fresh /\
  zkp (raw (token_of (prove [] [] (fresh, [])))) <> zkp (raw fresh).
Proof. repeat split; try reflexivity; discriminate. Qed.


Lemma prove_throws_on_object_header_witness :
  header_text fresh = default_header_text /\
  exists e, result_of (prove [] [] (fresh, [])) = Err e /\
            protectedHeaders (raw (token_of (prove [] [] (fresh, [])))) =
              Some default_header_text.
Proof.
  split; [reflexivity|].
  exact (@prove_throws_on_object_header integers platform [] [] fresh []
           (tl default_header_text) eq_refl).
Defined.

(** *** [verify] (C6) *)

Lemma verify_returns_method_answer_witness :
  verify [] (proved, []) =
    (Ok true,
     (proved, [CallHash (canonical_message proved);
               CallVerify (toLittleEndian 8687) (zkProof proved) []])).
Proof.
  destruct (@verify_returns_method_answer integers platform [] proved [])
    as (_ & H & _).
  exact (H 8687%Z eq_refl eq_refl).
Defined.

(** [verify] returns no boolean where the message hash is not obtained,
    whatever the bound method would answer: on [euro], where [btoa] throws,
    and on [proved] when the hash collaborator rejects.  The method's
    [verify] is not called. *)
Lemma verify_fails_before_method :
  (forall h, method_verify (method euro) h (zkProof euro) [] = Some false) /\
  verify [] (euro, []) = (Err InvalidCharacterError, (euro, [])) /\
  (forall h, method_verify (method proved) h (zkProof proved) [] = Some true) /\
  @verify integers platform_hash_down [] (proved, []) =
    (Err (Rejected ByHash),
     (proved, [CallHash (@canonical_message integers proved)])).
Proof. repeat split. Qed.

Lemma prove_failure_keeps_proof_witness :
  fails_before_proof [] [] unprepared [] /\
  is_ok (result_of (prove [] [] (unprepared, []))) = false /\
  zkProof (token_of (prove [] [] (unprepared, []))) = zkProof unprepared /\
  zkp (raw (token_of (prove [] [] (unprepared, [])))) = zkp (raw unprepared).
Proof.
  assert (H : fails_before_proof [] [] unprepared []) by (left; reflexivity).
  split; [exact H|].
  exact (@prove_failure_keeps_proof integers platform [] [] unprepared [] H).
Defined.

(** *** [parseCompact] and [verify] on texts and tokens *)

Example parseCompact_two_segments :
  parseCompact (js "A.B") [] = (Err InvalidCompactSegments, []).
Proof. reflexivity. Qed.

Example verify_proved :
  result_of (verify [] (proved, [])) = Ok true /\
  result_of (verify [] (fresh, [])) = Ok false.
Proof. split; reflexivity. Qed.

(** *** Headers, parsed tokens and compositions on the sample platform *)

Import Cases.

Lemma setHeader_override_keeps_names_witness :
  has_own (header (raw fresh)) (js "alg") = true /\
  map fst (header (raw (setHeader (js "alg") (JStr (js "m2")) fresh))) =
    map fst (header (raw fresh)) /\
  lookup (header (raw (setHeader (js "alg") (JStr (js "m2")) fresh))) (js "alg") =
    Some (JStr (js "m2")).
Proof.
  split; [reflexivity|].
  apply (@setHeader_override_keeps_names integers (js "alg") (JStr (js "m2")) fresh).
  reflexivity.
Defined.

Example setHeader_orders_keys :
  map fst (header (raw (setHeader (js "7") JNull
                         (setHeader (js "kid") JNull
                            (setHeader (js "10") JNull fresh))))) =
  map js ["7"; "10"; "alg"; "crit"; "circuitId"; "typ"; "kid"]%string.
Proof. reflexivity. Qed.

Lemma hash_input_determines_header_and_payload_witness :
  trace_of (getMessageHash (fresh, [])) = [] ++ [CallHash (canonical_message fresh)] /\
  trace_of (getMessageHash (unprepared, lookup_m1)) =
    lookup_m1 ++ [CallHash (canonical_message fresh)] /\
  header_text fresh = header_text unprepared /\
  payload (raw fresh) = payload (raw unprepared).
Proof.
  split; [reflexivity|]. split; [reflexivity|].
  apply (@hash_input_determines_header_and_payload integers platform fresh unprepared
           [] lookup_m1 (canonical_message fresh)); reflexivity.
Defined.

Lemma setHeader_changes_hash_input_witness :
  header_text (setHeader (js "kid") (JStr (js "k1")) fresh) <> header_text fresh /\
  canonical_message fresh <> canonical_message (setHeader (js "kid") (JStr (js "k1")) fresh).
Proof.
  assert (D : header_text (setHeader (js "kid") (JStr (js "k1")) fresh)
              <> header_text fresh) by discriminate.
  split; [exact D|].
  apply (@setHeader_changes_hash_input integers platform (js "kid") (JStr (js "k1"))
           fresh [] [] _ _ D); reflexivity.
Defined.

Lemma compactSerialize_returns_decodings_witness :
  compactSerialize scalar_token = Ok [105; 183; 29; 46; 97; 46; 182; 187; 158] /\
  field_text (JSON_stringify (zkProof scalar_token)) = js "true" /\
  exists h z p,
    atob (field_text (protectedHeaders (raw scalar_token))) = Ok h /\
    atob (field_text (JSON_stringify (zkProof scalar_token))) = Ok z /\
    atob (payload (raw scalar_token)) = Ok p /\
    [105; 183; 29; 46; 97; 46; 182; 187; 158] = h ++ js "." ++ p ++ js "." ++ z.
Proof.
  split; [reflexivity|]. split; [reflexivity|].
  destruct (@compactSerialize_returns_decodings integers scalar_token
              [105; 183; 29; 46; 97; 46; 182; 187; 158] eq_refl) as (_ & _ & H & _).
  exact H.
Defined.


Lemma sanitized_token_witness :
  sanitized listed_absent [] = (Ok parsed, lookup_m1) /\
  header (raw parsed) = getDefaultHeaders (JStr (js "m1")) (JStr (js "c1")) /\
  protectedHeaders (raw parsed) = None /\
  circuitId parsed = JStr (js "c1").
Proof.
  assert (S : sanitized listed_absent [] = (Ok parsed, lookup_m1)) by reflexivity.
  split; [exact S|].
  destruct (@sanitized_token integers platform listed_absent [] lookup_m1 parsed S)
    as (_ & H & P & _).
  split; [exact H|]. split; [exact P | reflexivity].
Defined.

Lemma parsed_token_is_read_only_witness :
  sanitized listed_absent [] = (Ok parsed, lookup_m1) /\
  compactSerialize parsed = Err SerializationIncomplete /\
  zkProof (token_of (prove [] [] (parsed, []))) = zkProof parsed.
Proof.
  assert (S : sanitized listed_absent [] = (Ok parsed, lookup_m1)) by reflexivity.
  split; [exact S|].
  destruct (@parsed_token_is_read_only integers platform listed_absent [] lookup_m1
              parsed S) as (C & P).
  split; [exact C | exact (proj1 (proj2 (P [] [] [])))].
Defined.

Lemma verify_ignores_received_header_witness :
  sanitized listed_absent [] = (Ok parsed, lookup_m1) /\
  sanitized other_header [] = (Ok parsed_other, lookup_m1) /\
  circuitId parsed_other = JStr (js "other") /\
  result_of (verify [] (parsed, [])) = result_of (verify [] (parsed_other, [])) /\
  trace_of (verify [] (parsed, [])) = trace_of (verify [] (parsed_other, [])).
Proof.
  assert (S1 : sanitized listed_absent [] = (Ok parsed, lookup_m1)) by reflexivity.
  assert (S2 : sanitized other_header [] = (Ok parsed_other, lookup_m1)) by reflexivity.
  split; [exact S1|]. split; [exact S2|]. split; [reflexivity|].
  exact (@verify_ignores_received_header integers platform listed_absent other_header
           [] lookup_m1 [] lookup_m1 parsed parsed_other [] [] S1 S2
           eq_refl eq_refl eq_refl).
Defined.

Lemma sanitized_refuses_default_header_witness :
  JSON_stringify (JObj (header (raw fresh))) = protectedHeaders with_default_header /\
  sanitized with_default_header [] = (Err (CriticalHeaderMissing (js "0")), []).
Proof.
  split; [reflexivity|].
  apply (@sanitized_refuses_default_header integers platform with_default_header
           (JStr (js "m1")) (JStr (js "c1")) []); reflexivity.
Defined.

Lemma parse_accepts_witness :
  parse accepted_compact [] = (Ok parsed, lookup_m1) /\
  startsWith (trimStart accepted_compact) 123 = false /\
  exists p0 p1 p2 h z,
    split 46 accepted_compact = [p0; p1; p2] /\
    atob p0 = Ok h /\ atob p1 = Ok (payload (raw parsed)) /\ atob p2 = Ok z /\
    JSON_parse z = Some (zkProof parsed) /\
    sanitized (RawJSONWebZeroknowledge (payload (raw parsed)) h [] z) [] =
      (Ok parsed, lookup_m1).
Proof.
  assert (P : parse accepted_compact [] = (Ok parsed, lookup_m1)) by reflexivity.
  split; [exact P|].
  exact (@parse_accepts integers platform accepted_compact [] lookup_m1 parsed P).
Defined.
